(** * File Fling Zip: the staging list and the archive builder

    A shallow embedding of [src/components/FileUpload.tsx]: the React
    component [FileUpload] keeps a list of staged files and bundles them
    into a ZIP archive that the browser downloads.

    The component state (the four [useState] cells) is a record.  The
    handlers are computations in a small monad that threads the state,
    appends every call to the outside world (state setters, toasts,
    object URLs, JSZip, the clock, [saveAs]) to a trace, and can throw.
    What the outside world answers is an oracle argument of the handler:
    the ids that [Math.random] yields, the URLs that
    [URL.createObjectURL] mints, whether the promise of [generateAsync]
    rejects, and the clock.

    Conventions of the model:
    - a handler runs to its end before the next one starts; in
      particular [createZip] is run across its [await] in one piece, and
      what it does is read off the calls it logs;
    - a handler is the closure of the latest render: user events are
      separated by a render, so the [files] a handler closes over is the
      current collection;
    - JavaScript numbers are binary64 values: a progress percentage is the
      rational value of a double, and the division and the multiplication
      that compute it round to the nearest double, ties to even; array
      lengths and time values are integers;
    - JSZip and file-saver are libraries: a container is a map from entry
      names to files and folders, [zip.file] creates the folders of a
      name with a [/] in it, and a blob is what unzipping it yields. *)

From Stdlib Require Import ZArith QArith Qround Qpower Qabs String Ascii List.
From Stdlib Require Import DecimalString Lia Lqa Floats.
From Stdlib.Strings Require Import Byte.
From stdpp Require Import base option list gmap strings.

Open Scope string_scope.

(** ** Data model *)

(** The browser's [File]: a name, a MIME type and an immutable byte
    payload. *)
Record File := {
  name : string;
  type : string;
  content : list byte
}.

(** What [URL.createObjectURL] mints: the string [blob:<uuid>].  It is the
    only producer of [preview] values. *)
Inductive ObjectURL := BlobURL (uuid : string).

Definition url_string (u : ObjectURL) : string :=
  match u with BlobURL uuid => "blob:" ++ uuid end.

(** [interface FileItem { id: string; file: File; preview?: string }] *)
Record FileItem := {
  id : string;
  file : File;
  preview : option ObjectURL
}.

(** JavaScript truthiness of [preview]: [undefined] and the empty string
    are falsy. *)
Definition truthy (p : option ObjectURL) : bool :=
  match p with
  | Some u => negb (String.eqb (url_string u) "")
  | None => false
  end.

(** The four [useState] cells of the component.  [zipProgress] is a
    JavaScript number: the rational value of the double it holds. *)
Record Component := {
  files : list FileItem;
  isDragging : bool;
  isCreatingZip : bool;
  zipProgress : Q
}.

Definition Error := string.

(** ** JavaScript numbers

    A finite double is written as the rational it denotes.  [round64] is
    roundTiesToEven of IEEE 754 into binary64 (53 bits of precision,
    least exponent -1022), for results below the overflow threshold; the
    arithmetic operators of JavaScript are the exact operation followed by
    that rounding. *)
Module JSNumber.
Open Scope Q_scope.

(** The exponent [e] of the binade of a positive rational:
    [2^e <= x < 2^(e+1)]. *)
Definition binade (x : Q) : Z :=
  let e := (Z.log2 (Qnum x) - Z.log2 (Zpos (Qden x)))%Z in
  if Qle_bool (2 ^ e) x then e else (e - 1)%Z.

(** The nearest integer, a tie going to the even one. *)
Definition round_half_even (x : Q) : Z :=
  let f := Qfloor x in
  match Qcompare (x - inject_Z f) (1 # 2) with
  | Lt => f
  | Gt => (f + 1)%Z
  | Eq => if Z.even f then f else (f + 1)%Z
  end.

(** The distance between neighbouring doubles around a positive [x]. *)
Definition ulp (x : Q) : Q := 2 ^ (Z.max (binade x) (-1022) - 52).

Definition round_pos (x : Q) : Q :=
  inject_Z (round_half_even (x / ulp x)) * ulp x.

Definition round64 (x : Q) : Q :=
  let x := Qred x in
  match Qnum x with
  | Z0 => 0
  | Zpos _ => Qred (round_pos x)
  | Zneg _ => Qred (- round_pos (- x))
  end.

(** [x / y] for a nonzero [y], and [x * y]. *)
Definition div (x y : Q) : Q := round64 (x / y).
Definition mul (x y : Q) : Q := round64 (x * y).

(** The rational a finite hardware double denotes, to compare [round64]
    with the binary64 arithmetic of the machine. *)
Definition value (f : float) : option Q :=
  match Prim2SF f with
  | S754_zero _ => Some 0
  | S754_finite s m e =>
      Some (Qred ((if s then -1 else 1) * inject_Z (Zpos m) * 2 ^ e))
  | _ => None
  end.

Definition of_nat (n : nat) : float := PrimFloat.of_uint63 (Uint63.of_Z (Z.of_nat n)).
End JSNumber.

(** ** JSZip, as the component uses it

    JSZip is a library; its code is not part of the sources.  The model
    follows [lib/object.js] of JSZip 3: a container maps entry names to
    files and folders, [file(name, data)] with the default options
    ([createFolders] is on) first adds a folder entry for every directory
    prefix of [name] and then stores the entry under [name], replacing the
    one already there.  The codec is not modelled: a blob is represented
    by what unzipping it yields. *)

(** An entry of a container. *)
Inductive ZipObject :=
| ZipFile (data : File)
| ZipFolder.

Abbreviation JSZip := (gmap string ZipObject).

Definition JSZip_new : JSZip := ∅.

(** [path.slice(-1) === "/"] *)
Fixpoint ends_with_slash (path : string) : bool :=
  match path with
  | EmptyString => false
  | String c EmptyString => Ascii.eqb c "/"
  | String _ rest => ends_with_slash rest
  end.

(** [path.lastIndexOf("/")], for a [path] whose first character has index
    [i]; [None] is -1. *)
Fixpoint lastIndexOf_slash (i : nat) (path : string) : option nat :=
  match path with
  | EmptyString => None
  | String c rest =>
      match lastIndexOf_slash (S i) rest with
      | Some j => Some j
      | None => if Ascii.eqb c "/" then Some i else None
      end
  end.

Definition forceTrailingSlash (path : string) : string :=
  if ends_with_slash path then path else path ++ "/".

Definition parentFolder (path : string) : string :=
  let path := if ends_with_slash path
              then substring 0 (String.length path - 1) path
              else path in
  match lastIndexOf_slash 0 path with
  | Some lastSlash => if (0 <? lastSlash)%nat then substring 0 lastSlash path else ""
  | None => ""
  end.

(** [folderAdd(name, true)]: unless the folder is there already,
    [fileAdd(name, null, {dir: true, createFolders: true})], which first
    adds the parent folder.  The parent is shorter than the folder, so
    [String.length name] levels of recursion reach the top; [depth]
    bounds them. *)
Fixpoint folderAdd (depth : nat) (name : string) (zip : JSZip) : JSZip :=
  let name := forceTrailingSlash name in
  match zip !! name with
  | Some _ => zip
  | None =>
      let parent := parentFolder name in
      let zip := match depth with
                 | S depth' =>
                     if String.eqb parent "" then zip else folderAdd depth' parent zip
                 | O => zip
                 end in
      <[name := ZipFolder]> zip
  end.

(** Modelled from the spec: [zip.file(name, data)] of the JSZip library,
    which is not among the sources, for a [File].  It is the addition of
    a payload under its name to the archive container of the spec, done
    as the library's [fileAdd] does it with the default options: the
    parent folders first, then the entry, over the one of the same
    name. *)
Definition JSZip_file (n : string) (data : File) (zip : JSZip) : JSZip :=
  let parent := parentFolder n in
  let zip := if String.eqb parent "" then zip
             else folderAdd (String.length n) parent zip in
  <[n := ZipFile data]> zip.

Record GenerateOptions := {
  opt_type : string;
  opt_compression : string;
  opt_level : Z
}.

(** What unzipping yields for one entry. *)
Inductive Unzipped :=
| FileBytes (bytes : list byte)
| Directory.

Record Blob := {
  entries : gmap string Unzipped;
  blob_compression : string;
  blob_level : Z
}.

Definition unzipped (e : ZipObject) : Unzipped :=
  match e with
  | ZipFile data => FileBytes (content data)
  | ZipFolder => Directory
  end.

(** Modelled from the spec: the blob that [generateAsync] of the JSZip
    library, which is not among the sources, resolves to.  It is the
    archive of the spec, with the compression asked for: unzipping it
    yields the entries of the container, a file entry giving back the
    bytes of its file. *)
Definition JSZip_generate (zip : JSZip) (o : GenerateOptions) : Blob :=
  {| entries := unzipped <$> zip;
     blob_compression := opt_compression o;
     blob_level := opt_level o |}.

(** Unzipping one file entry of a blob. *)
Definition extract (b : Blob) (n : string) : option (list byte) :=
  match entries b !! n with
  | Some (FileBytes bytes) => Some bytes
  | _ => None
  end.

(** Does the character occur in the string? *)
Fixpoint contains (c : ascii) (s : string) : bool :=
  match s with
  | EmptyString => false
  | String a rest => Ascii.eqb a c || contains c rest
  end.

(** ** The outside world *)

Inductive Event :=
| PreventDefault
| MathRandom (r : string)
| CreateObjectURL (f : File) (u : ObjectURL)
| RevokeObjectURL (u : ObjectURL)
| SetFiles (fs : list FileItem)
| SetIsDragging (b : bool)
| SetIsCreatingZip (b : bool)
| SetZipProgress (p : Q)
| ToastSuccess (msg : string)
| ToastError (msg : string)
| ConsoleError (msg : string) (e : Error)
| NewJSZip
| GenerateAsync (zip : JSZip) (o : GenerateOptions)
| NewDate (t : Z)
| SaveAs (b : Blob) (filename : string).

(** The component together with the log of everything it did, oldest
    event first. *)
Record World := {
  component : Component;
  trace : list Event
}.

Definition initial : World :=
  {| component := {| files := []; isDragging := false;
                     isCreatingZip := false; zipProgress := 0 |};
     trace := [] |}.

(** Answers of the platform to [addFiles]: the [i]-th evaluation of
    [Math.random().toString(36).substring(7)] and the [i]-th URL that
    [URL.createObjectURL] mints (indexed by the position of the file). *)
Record AddOracle := {
  random_id : nat → string;
  object_uuid : nat → string
}.

(** Answers of the platform to [createZip]: whether the promise of
    [generateAsync] rejects, and the time value of [new Date()] in
    milliseconds since the epoch. *)
Record BuildOracle := {
  generate_rejects : option Error;
  now : Z
}.

(** ** The monad of handlers *)

Inductive Result (A : Type) :=
| Returned (a : A)
| Thrown (e : Error).
Arguments Returned {A} a.
Arguments Thrown {A} e.

Definition M (A : Type) : Type := World → Result A * World.

Definition ret {A} (a : A) : M A := λ w, (Returned a, w).

Definition bind {A B} (m : M A) (k : A → M B) : M B :=
  λ w, match m w with
       | (Returned a, w') => k a w'
       | (Thrown e, w') => (Thrown e, w')
       end.

Definition throw {A} (e : Error) : M A := λ w, (Thrown e, w).

(** [try { body } catch (error) { handler } finally { finalizer }] *)
Definition try_catch_finally {A} (body : M A) (handler : Error → M A)
    (finalizer : M unit) : M A :=
  λ w,
    let '(r, w1) := match body w with
                    | (Returned a, w1) => (Returned a, w1)
                    | (Thrown e, w1) => handler e w1
                    end in
    match finalizer w1 with
    | (Returned _, w2) => (r, w2)
    | (Thrown e, w2) => (Thrown e, w2)
    end.

Notation "x <- m ;; k" := (bind m (λ x, k))
  (at level 100, m at next level, right associativity).
Notation "m ;;; k" := (bind m (λ _, k))
  (at level 100, right associativity).

Definition emit (e : Event) : M unit :=
  λ w, (Returned tt, {| component := component w; trace := (trace w ++ [e])%list |}).

Definition update (f : Component → Component) : M unit :=
  λ w, (Returned tt, {| component := f (component w); trace := trace w |}).

Definition read {A} (f : Component → A) : M A :=
  λ w, (Returned (f (component w)), w).

(** [for (let i = start; ...; i++)] running [count] more iterations over a
    loop-carried value. *)
Fixpoint for_loop {T} (i count : nat) (body : nat → T → M T) (s : T) : M T :=
  match count with
  | O => ret s
  | S k => s' <- body i s ;; for_loop (S i) k body s'
  end.

(** [Array.prototype.map] with an effectful callback, left to right; [i]
    is the index of the head of the list. *)
Fixpoint map_from {A B} (i : nat) (f : nat → A → M B) (l : list A) : M (list B) :=
  match l with
  | [] => ret []
  | a :: l' => b <- f i a ;; bs <- map_from (S i) f l' ;; ret (b :: bs)
  end.

(** [Array.prototype.forEach] *)
Fixpoint forEach {A} (f : A → M unit) (l : list A) : M unit :=
  match l with
  | [] => ret tt
  | a :: l' => f a ;;; forEach f l'
  end.

(** *** State setters and platform calls *)

Definition setFiles (fs : list FileItem) : M unit :=
  update (λ c, {| files := fs; isDragging := isDragging c;
                  isCreatingZip := isCreatingZip c; zipProgress := zipProgress c |}) ;;;
  emit (SetFiles fs).

(** [setFiles(prev => ...)]: the updater runs on the latest state. *)
Definition setFiles_with (updater : list FileItem → M (list FileItem)) : M unit :=
  prev <- read files ;; fs <- updater prev ;; setFiles fs.

Definition setIsDragging (b : bool) : M unit :=
  update (λ c, {| files := files c; isDragging := b;
                  isCreatingZip := isCreatingZip c; zipProgress := zipProgress c |}) ;;;
  emit (SetIsDragging b).

Definition setIsCreatingZip (b : bool) : M unit :=
  update (λ c, {| files := files c; isDragging := isDragging c;
                  isCreatingZip := b; zipProgress := zipProgress c |}) ;;;
  emit (SetIsCreatingZip b).

Definition setZipProgress (p : Q) : M unit :=
  update (λ c, {| files := files c; isDragging := isDragging c;
                  isCreatingZip := isCreatingZip c; zipProgress := p |}) ;;;
  emit (SetZipProgress p).

Definition toast_success (msg : string) : M unit := emit (ToastSuccess msg).
Definition toast_error (msg : string) : M unit := emit (ToastError msg).
Definition console_error (msg : string) (e : Error) : M unit := emit (ConsoleError msg e).
Definition preventDefault : M unit := emit PreventDefault.

Definition Math_random_id (o : AddOracle) (i : nat) : M string :=
  let r := random_id o i in emit (MathRandom r) ;;; ret r.

Definition URL_createObjectURL (o : AddOracle) (i : nat) (f : File) : M ObjectURL :=
  let u := BlobURL (object_uuid o i) in emit (CreateObjectURL f u) ;;; ret u.

Definition URL_revokeObjectURL (u : ObjectURL) : M unit := emit (RevokeObjectURL u).

Definition new_JSZip : M JSZip := emit NewJSZip ;;; ret JSZip_new.

(** [await zip.generateAsync(options)]: the promise resolves to the blob
    or rejects, and a rejection is thrown at the [await]. *)
Definition await_generateAsync (o : BuildOracle) (zip : JSZip)
    (opts : GenerateOptions) : M Blob :=
  emit (GenerateAsync zip opts) ;;;
  match generate_rejects o with
  | None => ret (JSZip_generate zip opts)
  | Some e => throw e
  end.

Definition new_Date (o : BuildOracle) : M Z :=
  emit (NewDate (now o)) ;;; ret (now o).

Definition saveAs (b : Blob) (filename : string) : M unit := emit (SaveAs b filename).

(** [`${n}`] for an array length. *)
Definition string_of_nat (n : nat) : string :=
  NilEmpty.string_of_uint (Nat.to_uint n).

(** ** Time values and [Date.prototype.toISOString]

    The day and calendar functions of ECMA-262 (section "Time Values and
    Time Range") on an integral time value [t], in milliseconds since the
    epoch, UTC. *)
Module JSDate.
Open Scope Z_scope.

Definition msPerDay : Z := 86400000.
Definition msPerHour : Z := 3600000.
Definition msPerMinute : Z := 60000.
Definition msPerSecond : Z := 1000.

Definition Day (t : Z) : Z := t / msPerDay.
Definition TimeWithinDay (t : Z) : Z := t mod msPerDay.

Definition DaysInYear (y : Z) : Z :=
  if negb (y mod 4 =? 0) then 365
  else if negb (y mod 100 =? 0) then 366
  else if negb (y mod 400 =? 0) then 365
  else 366.

Definition DayFromYear (y : Z) : Z :=
  365 * (y - 1970) + (y - 1969) / 4 - (y - 1901) / 100 + (y - 1601) / 400.

Definition TimeFromYear (y : Z) : Z := msPerDay * DayFromYear y.

(** The largest [y] with [TimeFromYear y <= t]: the quotient by the mean
    Gregorian year is off by at most one, which the two tests repair. *)
Definition YearFromTime (t : Z) : Z :=
  let d := Day t in
  let y0 := 1970 + (400 * d) / 146097 in
  if d <? DayFromYear y0 then y0 - 1
  else if DayFromYear (y0 + 1) <=? d then y0 + 1
  else y0.

Definition InLeapYear (t : Z) : Z :=
  if DaysInYear (YearFromTime t) =? 366 then 1 else 0.

Definition DayWithinYear (t : Z) : Z := Day t - DayFromYear (YearFromTime t).

Definition MonthFromTime (t : Z) : Z :=
  let d := DayWithinYear t in
  let l := InLeapYear t in
  if d <? 31 then 0
  else if d <? 59 + l then 1
  else if d <? 90 + l then 2
  else if d <? 120 + l then 3
  else if d <? 151 + l then 4
  else if d <? 181 + l then 5
  else if d <? 212 + l then 6
  else if d <? 243 + l then 7
  else if d <? 273 + l then 8
  else if d <? 304 + l then 9
  else if d <? 334 + l then 10
  else 11.

Definition DateFromTime (t : Z) : Z :=
  let d := DayWithinYear t in
  let l := InLeapYear t in
  match MonthFromTime t with
  | 0 => d + 1
  | 1 => d - 30
  | 2 => d - 58 - l
  | 3 => d - 89 - l
  | 4 => d - 119 - l
  | 5 => d - 150 - l
  | 6 => d - 180 - l
  | 7 => d - 211 - l
  | 8 => d - 242 - l
  | 9 => d - 272 - l
  | 10 => d - 303 - l
  | _ => d - 333 - l
  end.

Definition HourFromTime (t : Z) : Z := (t / msPerHour) mod 24.
Definition MinFromTime (t : Z) : Z := (t / msPerMinute) mod 60.
Definition SecFromTime (t : Z) : Z := (t / msPerSecond) mod 60.
Definition msFromTime (t : Z) : Z := t mod msPerSecond.

(** The decimal digit for [k mod 10]. *)
Definition digit_char (k : Z) : ascii :=
  match k mod 10 with
  | 0 => "0" | 1 => "1" | 2 => "2" | 3 => "3" | 4 => "4"
  | 5 => "5" | 6 => "6" | 7 => "7" | 8 => "8" | _ => "9"
  end%char.

(** [n] as exactly [width] decimal digits. *)
Fixpoint digits (width : nat) (n : Z) : string :=
  match width with
  | O => ""
  | S w => digits w (n / 10) ++ String (digit_char n) ""
  end.

(** Four digits for the years 0 to 9999, otherwise the expanded year: a
    sign and six digits. *)
Definition year_string (y : Z) : string :=
  if (0 <=? y) && (y <=? 9999) then digits 4 y
  else (if y <? 0 then "-" else "+") ++ digits 6 (Z.abs y).

(** [YYYY-MM-DDTHH:mm:ss.sssZ] *)
Definition toISOString (t : Z) : string :=
  year_string (YearFromTime t) ++ "-" ++ digits 2 (MonthFromTime t + 1)
    ++ "-" ++ digits 2 (DateFromTime t)
    ++ "T" ++ digits 2 (HourFromTime t)
    ++ ":" ++ digits 2 (MinFromTime t)
    ++ ":" ++ digits 2 (SecFromTime t)
    ++ "." ++ digits 3 (msFromTime t) ++ "Z".

End JSDate.

(** [String.prototype.slice(start, end)] for [0 <= start <= end]. *)
Definition slice (start stop : nat) (s : string) : string :=
  substring start (stop - start) s.

(** [s.replace(/c/g, d)] for a single character [c]. *)
Fixpoint replace_all (c d : ascii) (s : string) : string :=
  match s with
  | EmptyString => EmptyString
  | String a s' => String (if Ascii.eqb a c then d else a) (replace_all c d s')
  end.

(** ** The handlers of [FileUpload] *)

(** [if (p) { URL.revokeObjectURL(p) }] *)
Definition revoke_if_truthy (p : option ObjectURL) : M unit :=
  match p with
  | Some u => if truthy p then URL_revokeObjectURL u else ret tt
  | None => ret tt
  end.

(** [file.type.startsWith('image/')] *)
Definition is_image (f : File) : bool := String.prefix "image/" (type f).

(** The callback of [newFiles.map] in [addFiles]. *)
Definition to_fileItem (o : AddOracle) (i : nat) (f : File) : M FileItem :=
  r <- Math_random_id o i ;;
  p <- (if is_image f
        then u <- URL_createObjectURL o i f ;; ret (Some u)
        else ret None) ;;
  ret {| id := r; file := f; preview := p |}.

Definition addFiles (o : AddOracle) (newFiles : list File) : M unit :=
  fileItems <- map_from 0 (to_fileItem o) newFiles ;;
  setFiles_with (λ prev, ret (prev ++ fileItems)%list) ;;;
  toast_success ("Added " ++ string_of_nat (length newFiles) ++ " file(s)").

Definition removeFile (i : string) : M unit :=
  setFiles_with (λ prev,
    let fileToRemove := List.find (λ f, String.eqb (id f) i) prev in
    revoke_if_truthy (fileToRemove ≫= preview) ;;;
    ret (filter (λ f, id f ≠ i) prev)).

(** The [clearAllFiles] closure of a render at which [files] was
    [captured]: it iterates that list, whatever the state is by now. *)
Definition clearAllFiles_of (captured : list FileItem) : M unit :=
  forEach (λ f, revoke_if_truthy (preview f)) captured ;;;
  setFiles [] ;;;
  toast_success "All files cleared".

(** The closure of the latest render, which is what a click runs. *)
Definition clearAllFiles : M unit :=
  captured <- read files ;;
  clearAllFiles_of captured.

Definition zip_options : GenerateOptions :=
  {| opt_type := "blob"; opt_compression := "DEFLATE"; opt_level := 6 |}.

(** The body of the [for] loop of [createZip], at index [i]:
    [zip.file(fileItem.file.name, fileItem.file)] and the progress update
    [((i + 1) / files.length) * 50]. *)
Definition add_to_zip (fs : list FileItem) (i : nat) (zip : JSZip) : M JSZip :=
  match fs !! i with
  | Some fileItem =>
      let zip := JSZip_file (name (file fileItem)) (file fileItem) zip in
      setZipProgress
        (JSNumber.mul
           (JSNumber.div (inject_Z (Z.of_nat (i + 1))) (inject_Z (Z.of_nat (length fs))))
           50) ;;;
      ret zip
  | None => throw "TypeError: fileItem is undefined"
  end.

Definition createZip (o : BuildOracle) : M unit :=
  fs <- read files ;;
  if Nat.eqb (length fs) 0 then
    toast_error "Please add some files first"
  else
    setIsCreatingZip true ;;;
    setZipProgress 0 ;;;
    try_catch_finally
      (zip <- new_JSZip ;;
       zip <- for_loop 0 (length fs) (add_to_zip fs) zip ;;
       setZipProgress 75 ;;;
       content <- await_generateAsync o zip zip_options ;;
       setZipProgress 100 ;;;
       t <- new_Date o ;;
       let timestamp := replace_all ":" "-" (slice 0 19 (JSDate.toISOString t)) in
       saveAs content ("file-fling-" ++ timestamp ++ ".zip") ;;;
       toast_success "ZIP file created and downloaded successfully!")
      (λ error,
         console_error "Error creating ZIP:" error ;;;
         toast_error "Failed to create ZIP file")
      (setIsCreatingZip false ;;; setZipProgress 0).

Definition handleDragOver : M unit := preventDefault ;;; setIsDragging true.

Definition handleDragLeave : M unit := preventDefault ;;; setIsDragging false.

Definition handleDrop (o : AddOracle) (droppedFiles : list File) : M unit :=
  preventDefault ;;; setIsDragging false ;;; addFiles o droppedFiles.

(** [e.target.files] may be [null]. *)
Definition handleFileInput (o : AddOracle) (target_files : option (list File)) : M unit :=
  match target_files with
  | Some selectedFiles => addFiles o selectedFiles
  | None => ret tt
  end.

(** ** Sessions: what the user can do to the mounted component *)

Inductive Action :=
| DragOver
| DragLeave
| Drop (o : AddOracle) (droppedFiles : list File)
| FileInput (o : AddOracle) (target_files : option (list File))
| ClickRemove (i : string)
| ClickClearAll
| ClickCreateZip (o : BuildOracle).

Definition handler (a : Action) : M unit :=
  match a with
  | DragOver => handleDragOver
  | DragLeave => handleDragLeave
  | Drop o fs => handleDrop o fs
  | FileInput o fs => handleFileInput o fs
  | ClickRemove i => removeFile i
  | ClickClearAll => clearAllFiles
  | ClickCreateZip o => createZip o
  end.

(** The actions that reach [addFiles], [removeFile] or [clearAllFiles]. *)
Definition is_staging_action (a : Action) : bool :=
  match a with
  | Drop _ _ | FileInput _ _ | ClickRemove _ | ClickClearAll => true
  | DragOver | DragLeave | ClickCreateZip _ => false
  end.

Definition step (w : World) (a : Action) : World := snd (handler a w).

Definition run (acts : list Action) (w : World) : World := foldl step w acts.

(** ** Reading worlds and traces *)

(** What a handler appended to the trace when it ran from [w]. *)
Definition emitted {A} (m : M A) (w : World) : list Event :=
  drop (length (trace w)) (trace (snd (m w))).

(** The staging collection after a handler ran from [w]. *)
Definition files_after {A} (m : M A) (w : World) : list FileItem :=
  files (component (snd (m w))).

Definition created (tr : list Event) : list ObjectURL :=
  omap (λ e, match e with CreateObjectURL _ u => Some u | _ => None end) tr.

(** The handles minted, each with the file it was minted for. *)
Definition minted (tr : list Event) : list (File * ObjectURL) :=
  omap (λ e, match e with CreateObjectURL f u => Some (f, u) | _ => None end) tr.

Definition revoked (tr : list Event) : list ObjectURL :=
  omap (λ e, match e with RevokeObjectURL u => Some u | _ => None end) tr.

Definition drawn (tr : list Event) : list string :=
  omap (λ e, match e with MathRandom r => Some r | _ => None end) tr.

Definition downloads (tr : list Event) : list (Blob * string) :=
  omap (λ e, match e with SaveAs b f => Some (b, f) | _ => None end) tr.

Definition serialized (tr : list Event) : list (JSZip * GenerateOptions) :=
  omap (λ e, match e with GenerateAsync z o => Some (z, o) | _ => None end) tr.

Definition containers (tr : list Event) : list unit :=
  omap (λ e, match e with NewJSZip => Some tt | _ => None end) tr.

Definition progress_values (tr : list Event) : list Q :=
  omap (λ e, match e with SetZipProgress p => Some p | _ => None end) tr.

(** The toasts shown to the user, as (is it an error, message). *)
Definition toasts (tr : list Event) : list (bool * string) :=
  omap (λ e, match e with
             | ToastSuccess m => Some (false, m)
             | ToastError m => Some (true, m)
             | _ => None
             end) tr.

Definition collection_writes (tr : list Event) : list (list FileItem) :=
  omap (λ e, match e with SetFiles fs => Some fs | _ => None end) tr.

(** The component with its two builder cells overwritten. *)
Definition with_builder (b : bool) (p : Q) (c : Component) : Component :=
  {| files := files c; isDragging := isDragging c;
     isCreatingZip := b; zipProgress := p |}.

Definition with_files (fs : list FileItem) (c : Component) : Component :=
  {| files := fs; isDragging := isDragging c;
     isCreatingZip := isCreatingZip c; zipProgress := zipProgress c |}.

(** The entry that [addFiles] makes of the file at position [i]. *)
Definition staged (o : AddOracle) (i : nat) (f : File) : FileItem :=
  {| id := random_id o i; file := f;
     preview := if is_image f then Some (BlobURL (object_uuid o i)) else None |}.

(** What the callback of [addFiles] logs for the file at position [i]. *)
Definition staging_events (o : AddOracle) (i : nat) (f : File) : list Event :=
  MathRandom (random_id o i)
    :: (if is_image f then [CreateObjectURL f (BlobURL (object_uuid o i))] else []).

(** The preview handles the staged entries hold. *)
Definition live (fs : list FileItem) : list ObjectURL := omap preview fs.

(** The preview handles the staged entries hold, each with the file of
    its entry. *)
Definition held (fs : list FileItem) : list (File * ObjectURL) :=
  omap (λ f, match preview f with Some u => Some (file f, u) | None => None end) fs.

(** The name under which [createZip] stores a staged file. *)
Definition entry_name (f : FileItem) : string := name (file f).

(** No staged file has a [/] in its name, as is the case for files picked
    in a dialog or dropped from a file manager. *)
Definition top_level_names (fs : list FileItem) : Prop :=
  Forall (λ f, contains "/" (entry_name f) = false) fs.

(** The container [createZip] fills from the staged files, in order. *)
Definition zip_of (fs : list FileItem) : JSZip :=
  foldl (λ zip f, JSZip_file (name (file f)) (file f) zip) JSZip_new fs.

(** The name [createZip] gives the download when the clock reads [t]. *)
Definition zip_filename (t : Z) : string :=
  "file-fling-" ++ replace_all ":" "-" (slice 0 19 (JSDate.toISOString t)) ++ ".zip".

(** The [i]-th per-file progress value of a build of [n] files: the
    double [((i + 1) / n) * 50]. *)
Definition checkpoint (n i : nat) : Q :=
  JSNumber.mul (JSNumber.div (inject_Z (Z.of_nat (i + 1))) (inject_Z (Z.of_nat n))) 50.

(** The same value computed by the binary64 unit of the machine. *)
Definition checkpoint_binary64 (n i : nat) : float :=
  PrimFloat.mul (PrimFloat.div (JSNumber.of_nat (i + 1)) (JSNumber.of_nat n))
                (JSNumber.of_nat 50).

(** Do the checkpoints of every build of at most [bound] files agree with
    the machine's? *)
Definition checkpoints_agree (bound : nat) : bool :=
  forallb (λ n,
    forallb (λ i,
      match JSNumber.value (checkpoint_binary64 n i) with
      | Some q => Qeq_bool (checkpoint n i) q
      | None => false
      end) (seq 0 n)) (seq 1 bound).

(** The time value truncated to whole seconds. *)
Definition second_of (t : Z) : Z := (t / 1000)%Z.

(** The day within the year on which month [m] starts; [l] is 1 in a leap
    year. *)
Definition month_start (m l : Z) : Z :=
  match m with
  | 0 => 0 | 1 => 31 | 2 => 59 + l | 3 => 90 + l | 4 => 120 + l | 5 => 151 + l
  | 6 => 181 + l | 7 => 212 + l | 8 => 243 + l | 9 => 273 + l | 10 => 304 + l
  | _ => 334 + l
  end%Z.

(** [YYYY-MM-DDTHH-MM-SS], digit by digit. *)
Definition stamp (y mo d h mi s : Z) : string :=
  JSDate.digits 4 y ++ "-" ++ JSDate.digits 2 mo ++ "-" ++ JSDate.digits 2 d
    ++ "T" ++ JSDate.digits 2 h ++ "-" ++ JSDate.digits 2 mi
    ++ "-" ++ JSDate.digits 2 s.

(** The stamp of the UTC calendar fields of the time value [t]. *)
Definition utc_stamp (t : Z) : string :=
  stamp (JSDate.YearFromTime t) (JSDate.MonthFromTime t + 1) (JSDate.DateFromTime t)
        (JSDate.HourFromTime t) (JSDate.MinFromTime t) (JSDate.SecFromTime t).

(** *** The filename pattern
    [file-fling-\d{4}-\d{2}-\d{2}T\d{2}-\d{2}-\d{2}\.zip], matched against
    the whole string. *)
Inductive token := Lit (c : ascii) | Digit.

Definition is_digit (c : ascii) : bool :=
  (48 <=? nat_of_ascii c)%nat && (nat_of_ascii c <=? 57)%nat.

Fixpoint matches (p : list token) (s : string) : bool :=
  match p, s with
  | [], EmptyString => true
  | Lit c :: p', String a s' => Ascii.eqb c a && matches p' s'
  | Digit :: p', String a s' => is_digit a && matches p' s'
  | _, _ => false
  end.

Definition lits (s : string) : list token := Lit <$> list_ascii_of_string s.

Definition filename_pattern : list token :=
  (lits "file-fling-" ++ replicate 4 Digit ++ lits "-" ++ replicate 2 Digit
   ++ lits "-" ++ replicate 2 Digit ++ lits "T" ++ replicate 2 Digit
   ++ lits "-" ++ replicate 2 Digit ++ lits "-" ++ replicate 2 Digit
   ++ lits ".zip")%list.

(** *** Invariants of a session *)

(** Every handle minted so far is held by a staged entry or has been
    revoked, once, and nothing else has been revoked. *)
Definition balanced (w : World) : Prop :=
  created (trace w) ≡ₚ (live (files (component w)) ++ revoked (trace w))%list.

(** The ids of the staged entries are draws of the random source, each
    draw used by at most one entry. *)
Definition ids_drawn (w : World) : Prop :=
  (id <$> files (component w)) `sublist_of` drawn (trace w).

(** What one action does to the collection and to the handles, given the
    events [l] it logged: it appends entries whose ids it drew and whose
    handles it minted, or it removes by id, or it clears. *)
Inductive effect_of (w : World) (a : Action) (l : list Event) : Prop :=
| Staged (items : list FileItem) :
    files_after (handler a) w = (files (component w) ++ items)%list →
    drawn l = id <$> items → created l = live items → revoked l = [] →
    effect_of w a l
| Removed (i : string) :
    files_after (handler a) w = filter (λ f, id f ≠ i) (files (component w)) →
    drawn l = [] → created l = [] →
    revoked l = option_list
                  (List.find (λ f, String.eqb (id f) i) (files (component w))
                     ≫= preview) →
    effect_of w a l
| Cleared :
    files_after (handler a) w = [] →
    drawn l = [] → created l = [] → revoked l = live (files (component w)) →
    effect_of w a l.

(** ** Sample inputs *)

Global Instance ObjectURL_eq_dec : EqDecision ObjectURL.
Proof. solve_decision. Defined.

(** 12 bytes of text. *)
Definition a_txt : File :=
  {| name := "a.txt"; type := "text/plain";
     content := [x68; x65; x6c; x6c; x6f; x2c; x20; x77; x6f; x72; x6c; x64]%byte |}.

(** 2048 bytes: the PNG signature and padding. *)
Definition b_png : File :=
  {| name := "b.png"; type := "image/png";
     content := ([x89; x50; x4e; x47; x0d; x0a; x1a; x0a]%byte
                 ++ replicate 2040 x00%byte)%list |}.

Definition c_gif : File :=
  {| name := "c.gif"; type := "image/gif";
     content := [x47; x49; x46; x38; x39; x61]%byte |}.

(** A second file called [a.txt], with other bytes. *)
Definition a_txt_again : File :=
  {| name := "a.txt"; type := "text/plain"; content := [x62; x79; x65]%byte |}.

(** Two files whose name has a folder in it, as a script can make them
    ([new File(bits, "d/a.txt")]) and hand them over in a drop. *)
Definition d_a_txt : File :=
  {| name := "d/a.txt"; type := "text/plain"; content := [x68; x69]%byte |}.

Definition d_a_txt_again : File :=
  {| name := "d/a.txt"; type := "text/plain"; content := [x62; x79; x65]%byte |}.

(** A random source whose draws differ. *)
Definition distinct_draws : AddOracle :=
  {| random_id := λ i, "k3x9a" ++ string_of_nat i;
     object_uuid := λ i, "3f0c-" ++ string_of_nat i |}.

(** A random source whose draws have short base-36 expansions, such as
    0.5 ([0.i]) and 0.25 ([0.9]): [substring(7)] of either is empty. *)
Definition short_draws : AddOracle :=
  {| random_id := λ _, "";
     object_uuid := λ i, "3f0c-" ++ string_of_nat i |}.

Definition resolves_at (t : Z) : BuildOracle :=
  {| generate_rejects := None; now := t |}.

Definition rejects_at (t : Z) : BuildOracle :=
  {| generate_rejects := Some "NotReadableError"; now := t |}.

(** [a.txt] and [b.png] staged in a fresh component. *)
Definition two_staged : World := run [Drop distinct_draws [a_txt; b_png]] initial.

(** Two images staged under colliding ids. *)
Definition two_images_one_id : World := run [Drop short_draws [b_png; c_gif]] initial.

(** A session that stages, removes, builds and clears. *)
Definition sample_session : list Action :=
  [Drop distinct_draws [a_txt; b_png]; FileInput distinct_draws None;
   ClickRemove "k3x9a1"; ClickCreateZip (resolves_at 1700000000500);
   ClickClearAll].

(** Two images staged under one id, then that id removed. *)
Definition colliding_session : list Action :=
  [Drop short_draws [b_png; c_gif]; ClickRemove ""].

(** Two files called [a.txt] staged. *)
Definition same_name_twice : World := run [Drop distinct_draws [a_txt; a_txt_again]] initial.

(** Two files called [d/a.txt] staged. *)
Definition nested_name_twice : World :=
  run [Drop distinct_draws [d_a_txt; d_a_txt_again]] initial.

(** ** The rest of the component *)

(** [File.size]: the length of the payload in bytes. *)
Definition file_size (f : File) : Z := Z.of_nat (length (content f)).

(** [files.reduce((sum, file) => sum + file.file.size, 0)], computed at
    every render. *)
Definition totalSize (c : Component) : Z :=
  foldl (λ sum f, (sum + file_size (file f))%Z) 0%Z (files c).

(** What the rendered page lets the user do.  The drop zone and the file
    input are always there; the card with the two buttons and the rows is
    rendered when [files.length > 0]; [Create ZIP] is [disabled] while
    [isCreatingZip]; each row has the remove button of its entry. *)
Definition enabled (c : Component) (a : Action) : bool :=
  match a with
  | DragOver | DragLeave | Drop _ _ | FileInput _ _ => true
  | ClickRemove i => bool_decide (i ∈ id <$> files c)
  | ClickClearAll => (0 <? length (files c))%nat
  | ClickCreateZip _ => (0 <? length (files c))%nat && negb (isCreatingZip c)
  end.

(** The [src] of the thumbnails the rows show:
    [fileItem.preview ? <img src={fileItem.preview} /> : <File />]. *)
Definition thumbnails (c : Component) : list ObjectURL :=
  omap (λ f, if truthy (preview f) then preview f else None) (files c).

(** The handles held by staged entries and the handles revoked are, with
    their multiplicities, among the handles minted. *)
Definition accounted (w : World) : Prop :=
  (live (files (component w)) ++ revoked (trace w))%list ⊆+ created (trace w).

(** The drag events, the only actions that write [isDragging]. *)
Definition is_drag_action (a : Action) : bool :=
  match a with
  | DragOver | DragLeave | Drop _ _ => true
  | _ => false
  end.

(** *** [createZip] around its [await]

    The part of [createZip] that runs when the button is clicked, up to
    the point where the promise of [generateAsync] is pending: it yields
    the container it filled, or nothing when the guard returned. *)
Definition createZip_begin : M (option JSZip) :=
  fs <- read files ;;
  if Nat.eqb (length fs) 0 then
    toast_error "Please add some files first" ;;; ret None
  else
    setIsCreatingZip true ;;;
    setZipProgress 0 ;;;
    zip <- new_JSZip ;;
    zip <- for_loop 0 (length fs) (add_to_zip fs) zip ;;
    setZipProgress 75 ;;;
    emit (GenerateAsync zip zip_options) ;;;
    ret (Some zip).

(** The part of [createZip] that runs when the promise settles: the rest
    of the [try] block, or the [catch] block, and the [finally] block. *)
Definition createZip_resume (o : BuildOracle) (zip : JSZip) : M unit :=
  try_catch_finally
    (content <- match generate_rejects o with
                | None => ret (JSZip_generate zip zip_options)
                | Some e => throw e
                end ;;
     setZipProgress 100 ;;;
     t <- new_Date o ;;
     let timestamp := replace_all ":" "-" (slice 0 19 (JSDate.toISOString t)) in
     saveAs content ("file-fling-" ++ timestamp ++ ".zip") ;;;
     toast_success "ZIP file created and downloaded successfully!")
    (λ error,
       console_error "Error creating ZIP:" error ;;;
       toast_error "Failed to create ZIP file")
    (setIsCreatingZip false ;;; setZipProgress 0).

(** What happens to the mounted component: the user does something, or
    the oldest pending promise settles. *)
Inductive Input :=
| Click (a : Action)
| Settled.

(** The component with the builds whose promise is pending, oldest first,
    each with what the platform will answer when it settles. *)
Record Async := {
  world : World;
  inflight : list (BuildOracle * JSZip)
}.

Definition mounted : Async := {| world := initial; inflight := [] |}.

Definition async_step (s : Async) (i : Input) : Async :=
  match i with
  | Click (ClickCreateZip o) =>
      match createZip_begin (world s) with
      | (Returned (Some zip), w) =>
          {| world := w; inflight := (inflight s ++ [(o, zip)])%list |}
      | (_, w) => {| world := w; inflight := inflight s |}
      end
  | Click a => {| world := step (world s) a; inflight := inflight s |}
  | Settled =>
      match inflight s with
      | (o, zip) :: rest =>
          {| world := snd (createZip_resume o zip (world s)); inflight := rest |}
      | [] => s
      end
  end.

Definition async_run (inputs : list Input) (s : Async) : Async :=
  foldl async_step s inputs.

(** Every click of the session was on something the page offered. *)
Fixpoint ui_driven (inputs : list Input) (s : Async) : Prop :=
  match inputs with
  | [] => True
  | i :: rest =>
      match i with
      | Click a => enabled (component (world s)) a = true
      | Settled => True
      end ∧ ui_driven rest (async_step s i)
  end.

(** The builder is idle at 0 with no promise pending, or it is building
    at 75 with exactly one promise pending. *)
Definition idle_or_building (s : Async) : Prop :=
  (inflight s = [] ∧ isCreatingZip (component (world s)) = false
   ∧ zipProgress (component (world s)) = 0%Q)
  ∨ (∃ o zip, inflight s = [(o, zip)]
       ∧ isCreatingZip (component (world s)) = true
       ∧ zipProgress (component (world s)) = 75%Q).

(** Clearing while a build is in flight: stage, click [Create ZIP], click
    [Clear All], and only then let the promise resolve. *)
Definition clear_while_building : list Input :=
  [Click (Drop distinct_draws [a_txt; b_png]);
   Click (ClickCreateZip (resolves_at 1700000000500));
   Click ClickClearAll;
   Settled].

(** * Verification *)

(** ** Running the handlers *)

Lemma emitted_app {A} (m : M A) w l :
  trace (snd (m w)) = (trace w ++ l)%list → emitted m w = l.
Proof. intros H. unfold emitted. rewrite H. apply drop_app_length. Qed.

(** The loop of [createZip] from index [i] with [k] files to go: it stores
    the next [k] files and logs their checkpoints. *)
Lemma for_loop_add_to_zip fs c k : ∀ i zip tr b p,
  i + k = length fs →
  for_loop i k (add_to_zip fs) zip {| component := with_builder b p c; trace := tr |}
  = (Returned (foldl (λ z f, JSZip_file (name (file f)) (file f) z) zip
                 (take k (drop i fs))),
     {| component :=
          with_builder b (default p (last (checkpoint (length fs) <$> seq i k))) c;
        trace := (tr ++ (SetZipProgress <$> (checkpoint (length fs) <$> seq i k)))%list |}).
Proof.
  induction k as [|k IH]; intros i zip tr b p Hlen.
  - simpl. by rewrite app_nil_r.
  - destruct (lookup_lt_is_Some_2 fs i ltac:(lia)) as [f Hf].
    rewrite (drop_S _ _ _ Hf). cbn [for_loop take foldl].
    unfold bind at 1. unfold add_to_zip at 1. rewrite Hf.
    cbn -[for_loop checkpoint seq JSNumber.mul JSNumber.div].
    change (JSNumber.mul
              (JSNumber.div (inject_Z (Z.of_nat (i + 1)))
                            (inject_Z (Z.of_nat (length fs)))) 50)
      with (checkpoint (length fs) i).
    change {| files := files c; isDragging := isDragging c; isCreatingZip := b;
              zipProgress := checkpoint (length fs) i |}
      with (with_builder b (checkpoint (length fs) i) c).
    rewrite IH by lia. f_equal. f_equal.
    + f_equal. cbn [seq fmap list_fmap].
      destruct k; [done|]. rewrite last_cons. cbn [seq fmap list_fmap].
      destruct (last _); done.
    + cbn [seq fmap list_fmap]. by rewrite <- app_assoc.
Qed.

Lemma zip_of_loop fs :
  foldl (λ z f, JSZip_file (name (file f)) (file f) z) JSZip_new
    (take (length fs) (drop 0 fs)) = zip_of fs.
Proof. by rewrite drop_0, firstn_all. Qed.

(** Runs [createZip] on a non-empty collection up to the [await]. *)
Ltac enter_build c H0 :=
  unfold createZip, bind at 1, read; cbn [component];
  destruct (Nat.eqb_spec (length (files c)) 0) as [H0|_];
  [ by apply nil_length_inv in H0 | ];
  unfold bind at 1, setIsCreatingZip, bind at 1, update, emit;
  cbn [component trace];
  unfold bind at 1, setZipProgress at 1, bind at 1, update, emit;
  cbn [component trace files isDragging isCreatingZip zipProgress];
  unfold try_catch_finally;
  unfold bind at 1, new_JSZip, bind at 1, emit, ret; cbn [component trace];
  unfold bind at 1;
  change {| files := files c; isDragging := isDragging c;
            isCreatingZip := true; zipProgress := 0 |}
    with (with_builder true 0 c);
  rewrite for_loop_add_to_zip by lia; rewrite zip_of_loop;
  unfold await_generateAsync.

(** A build whose serialization resolves. *)
Lemma createZip_resolved o w :
  files (component w) ≠ [] → generate_rejects o = None →
  createZip o w =
    (Returned tt,
     {| component := with_builder false 0 (component w);
        trace := (trace w
          ++ [SetIsCreatingZip true; SetZipProgress 0; NewJSZip]
          ++ (SetZipProgress <$> (checkpoint (length (files (component w)))
                                    <$> seq 0 (length (files (component w)))))
          ++ [SetZipProgress 75;
              GenerateAsync (zip_of (files (component w))) zip_options;
              SetZipProgress 100; NewDate (now o);
              SaveAs (JSZip_generate (zip_of (files (component w))) zip_options)
                     (zip_filename (now o));
              ToastSuccess "ZIP file created and downloaded successfully!";
              SetIsCreatingZip false; SetZipProgress 0])%list |}).
Proof.
  intros Hne Hgen. destruct w as [c tr]. cbn [component trace] in *.
  enter_build c H0. rewrite Hgen.
  cbn -[checkpoint seq zip_of zip_options JSZip_generate].
  f_equal. f_equal. by rewrite <- !app_assoc.
Qed.

(** A build whose serialization rejects with [e]. *)
Lemma createZip_rejected o w e :
  files (component w) ≠ [] → generate_rejects o = Some e →
  createZip o w =
    (Returned tt,
     {| component := with_builder false 0 (component w);
        trace := (trace w
          ++ [SetIsCreatingZip true; SetZipProgress 0; NewJSZip]
          ++ (SetZipProgress <$> (checkpoint (length (files (component w)))
                                    <$> seq 0 (length (files (component w)))))
          ++ [SetZipProgress 75;
              GenerateAsync (zip_of (files (component w))) zip_options;
              ConsoleError "Error creating ZIP:" e;
              ToastError "Failed to create ZIP file";
              SetIsCreatingZip false; SetZipProgress 0])%list |}).
Proof.
  intros Hne Hgen. destruct w as [c tr]. cbn [component trace] in *.
  enter_build c H0. rewrite Hgen.
  cbn -[checkpoint seq zip_of zip_options JSZip_generate].
  f_equal. f_equal. by rewrite <- !app_assoc.
Qed.

(** The guard of [createZip]: nothing but the error toast. *)
Lemma createZip_empty o w :
  files (component w) = [] →
  createZip o w =
    (Returned tt,
     {| component := component w;
        trace := (trace w ++ [ToastError "Please add some files first"])%list |}).
Proof.
  intros H. destruct w as [c tr]. cbn [component trace] in *.
  unfold createZip, bind at 1, read. cbn [component]. by rewrite H.
Qed.

(** ** Running the staging handlers *)

Lemma map_from_to_fileItem o l : ∀ i w,
  map_from i (to_fileItem o) l w =
    (Returned (imap (λ j, staged o (i + j)) l),
     {| component := component w;
        trace := (trace w ++ concat (imap (λ j, staging_events o (i + j)) l))%list |}).
Proof.
  induction l as [|f l IH]; intros i w.
  - cbn. rewrite app_nil_r. by destruct w.
  - cbn [map_from]. unfold bind at 1, to_fileItem at 1, bind at 1, Math_random_id, bind at 1, emit, ret.
    cbn [component trace]. unfold bind at 1.
    rewrite !imap_cons. cbn [concat]. unfold staged at 1, staging_events at 1.
    rewrite Nat.add_0_r.
    destruct (is_image f).
    + unfold bind at 1, URL_createObjectURL, bind at 1, emit, ret. cbn [component trace].
      unfold bind at 1. rewrite IH. cbn [component trace].
      f_equal; [f_equal; f_equal|f_equal].
      * apply imap_ext; intros j x _; unfold compose; simpl; f_equal; lia.
      * rewrite <- !app_assoc. cbn. do 3 f_equal. f_equal. apply imap_ext; intros j x _; unfold compose; simpl; f_equal; lia.
    + unfold bind at 1. rewrite IH. cbn [component trace].
      f_equal; [f_equal; f_equal|f_equal].
      * apply imap_ext; intros j x _; unfold compose; simpl; f_equal; lia.
      * rewrite <- !app_assoc. cbn. do 2 f_equal. f_equal. apply imap_ext; intros j x _; unfold compose; simpl; f_equal; lia.
Qed.

Lemma addFiles_run o newFiles w :
  addFiles o newFiles w =
    (Returned tt,
     {| component := with_files (files (component w) ++ imap (staged o) newFiles) (component w);
        trace := (trace w ++ concat (imap (staging_events o) newFiles)
                   ++ [SetFiles (files (component w) ++ imap (staged o) newFiles);
                       ToastSuccess ("Added " ++ string_of_nat (length newFiles) ++ " file(s)")])%list |}).
Proof.
  unfold addFiles, bind at 1. rewrite map_from_to_fileItem.
  cbn -[string_of_nat String.append]. unfold toast_success, emit. cbn [component trace].
  f_equal. f_equal. by rewrite <- !app_assoc.
Qed.

Lemma truthy_Some u : truthy (Some u) = true.
Proof. by destruct u. Qed.

Lemma revoke_if_truthy_run p w :
  revoke_if_truthy p w =
    (Returned tt,
     {| component := component w;
        trace := (trace w ++ (RevokeObjectURL <$> option_list p))%list |}).
Proof.
  destruct p as [u|]; unfold revoke_if_truthy.
  - by rewrite truthy_Some.
  - cbn. rewrite app_nil_r. by destruct w.
Qed.

Lemma removeFile_run i w :
  removeFile i w =
    (Returned tt,
     {| component := with_files (filter (λ f, id f ≠ i) (files (component w))) (component w);
        trace := (trace w
          ++ (RevokeObjectURL <$>
                option_list (List.find (λ f, String.eqb (id f) i) (files (component w))
                               ≫= preview))
          ++ [SetFiles (filter (λ f, id f ≠ i) (files (component w)))])%list |}).
Proof.
  unfold removeFile, setFiles_with, bind at 1, read.
  unfold bind at 1, bind at 1. rewrite revoke_if_truthy_run.
  cbn [component trace]. unfold ret at 1, setFiles, bind, update, emit.
  cbn [component trace]. f_equal. f_equal. by rewrite <- app_assoc.
Qed.

Lemma forEach_revoke fs : ∀ w,
  forEach (λ f, revoke_if_truthy (preview f)) fs w =
    (Returned tt,
     {| component := component w;
        trace := (trace w ++ (RevokeObjectURL <$> live fs))%list |}).
Proof.
  induction fs as [|f fs IH]; intros w.
  - cbn. rewrite app_nil_r. by destruct w.
  - cbn [forEach]. unfold bind at 1. rewrite revoke_if_truthy_run, IH.
    cbn [component trace]. f_equal. f_equal.
    rewrite <- app_assoc. f_equal. unfold live. cbn [omap list_omap].
    by destruct (preview f).
Qed.

Lemma clearAllFiles_of_run captured w :
  clearAllFiles_of captured w =
    (Returned tt,
     {| component := with_files [] (component w);
        trace := (trace w ++ (RevokeObjectURL <$> live captured)
                   ++ [SetFiles []; ToastSuccess "All files cleared"])%list |}).
Proof.
  unfold clearAllFiles_of, bind at 1.
  rewrite forEach_revoke. cbn [component trace].
  unfold setFiles, bind, update, emit, toast_success, emit. cbn [component trace].
  f_equal. f_equal. by rewrite <- !app_assoc.
Qed.

Lemma clearAllFiles_run w :
  clearAllFiles w =
    (Returned tt,
     {| component := with_files [] (component w);
        trace := (trace w ++ (RevokeObjectURL <$> live (files (component w)))
                   ++ [SetFiles []; ToastSuccess "All files cleared"])%list |}).
Proof.
  unfold clearAllFiles, bind at 1, read. apply clearAllFiles_of_run.
Qed.

(** ** Reading the trace of a build *)

Lemma omap_fmap_Some {A B} (f : B → option A) (g : A → B) (l : list A) :
  (∀ x, f (g x) = Some x) → omap f (g <$> l) = l.
Proof. intros H. induction l as [|x l IH]; [done|]. cbn. by rewrite H, IH. Qed.

Lemma omap_fmap_None {A B C} (f : B → option C) (g : A → B) (l : list A) :
  (∀ x, f (g x) = None) → omap f (g <$> l) = [].
Proof. intros H. induction l as [|x l IH]; [done|]. cbn. by rewrite H. Qed.

Ltac observe :=
  unfold progress_values, downloads, serialized, containers, collection_writes, toasts,
    created, revoked, drawn;
  rewrite ?omap_app;
  repeat first
    [ rewrite (omap_fmap_Some _ SetZipProgress) by done
    | rewrite (omap_fmap_Some _ RevokeObjectURL) by done
    | rewrite omap_fmap_None by done ];
  cbn [omap list_omap app].

Section Build.
Variable o : BuildOracle.
Variable w : World.

Let fs := files (component w).
Let n := length fs.

Lemma build_emitted_resolved :
  fs ≠ [] → generate_rejects o = None →
  emitted (createZip o) w =
    ([SetIsCreatingZip true; SetZipProgress 0; NewJSZip]
     ++ (SetZipProgress <$> (checkpoint n <$> seq 0 n))
     ++ [SetZipProgress 75; GenerateAsync (zip_of fs) zip_options;
         SetZipProgress 100; NewDate (now o);
         SaveAs (JSZip_generate (zip_of fs) zip_options) (zip_filename (now o));
         ToastSuccess "ZIP file created and downloaded successfully!";
         SetIsCreatingZip false; SetZipProgress 0])%list.
Proof.
  intros Hne Hgen. apply emitted_app.
  by rewrite (createZip_resolved o w Hne Hgen).
Qed.

Lemma build_emitted_rejected e :
  fs ≠ [] → generate_rejects o = Some e →
  emitted (createZip o) w =
    ([SetIsCreatingZip true; SetZipProgress 0; NewJSZip]
     ++ (SetZipProgress <$> (checkpoint n <$> seq 0 n))
     ++ [SetZipProgress 75; GenerateAsync (zip_of fs) zip_options;
         ConsoleError "Error creating ZIP:" e;
         ToastError "Failed to create ZIP file";
         SetIsCreatingZip false; SetZipProgress 0])%list.
Proof.
  intros Hne Hgen. apply emitted_app.
  by rewrite (createZip_rejected o w e Hne Hgen).
Qed.

Lemma build_emitted_empty :
  fs = [] → emitted (createZip o) w = [ToastError "Please add some files first"].
Proof.
  intros H. apply emitted_app. by rewrite (createZip_empty o w H).
Qed.

(** The three ways a call of [createZip] can go. *)
Lemma build_cases :
  (fs = [] ∧ createZip o w = (Returned tt,
      {| component := component w;
         trace := (trace w ++ [ToastError "Please add some files first"])%list |}))
  ∨ (fs ≠ [] ∧ generate_rejects o = None)
  ∨ (fs ≠ [] ∧ ∃ e, generate_rejects o = Some e).
Proof.
  destruct (decide (fs = [])) as [H|H].
  - left. split; [done|]. by apply createZip_empty.
  - right. destruct (generate_rejects o) as [e|] eqn:He; eauto.
Qed.
End Build.

(** C4: with an empty staged list [createZip] reports the error and stops:
    the only thing it does is the error toast, so no container is made,
    nothing is serialized or downloaded, and the component (builder flag
    and progress included) is the one it started from. *)
Theorem createZip_empty_aborts o w :
  files (component w) = [] →
  fst (createZip o w) = Returned tt
  ∧ emitted (createZip o) w = [ToastError "Please add some files first"]
  ∧ containers (emitted (createZip o) w) = []
  ∧ serialized (emitted (createZip o) w) = []
  ∧ downloads (emitted (createZip o) w) = []
  ∧ progress_values (emitted (createZip o) w) = []
  ∧ component (snd (createZip o w)) = component w.
Proof.
  intros H. rewrite (build_emitted_empty o w H), (createZip_empty o w H).
  by repeat split.
Qed.

Lemma createZip_empty_aborts_witness :
  emitted (createZip {| generate_rejects := None; now := 0 |}) initial
    = [ToastError "Please add some files first"]
  ∧ component (snd (createZip {| generate_rejects := None; now := 0 |} initial))
    = component initial.
Proof.
  pose proof (createZip_empty_aborts {| generate_rejects := None; now := 0 |}
                initial eq_refl) as (_ & H1 & _ & _ & _ & _ & H2).
  exact (conj H1 H2).
Defined.

Lemma createZip_returns o w : fst (createZip o w) = Returned tt.
Proof.
  destruct (build_cases o w) as [[_ ->]|[[H1 H2]|[H1 [e H2]]]]; [done| |].
  - by rewrite (createZip_resolved o w H1 H2).
  - by rewrite (createZip_rejected o w e H1 H2).
Qed.

Lemma createZip_files o w : files_after (createZip o) w = files (component w).
Proof.
  unfold files_after.
  destruct (build_cases o w) as [[_ ->]|[[H1 H2]|[H1 [e H2]]]]; [done| |].
  - by rewrite (createZip_resolved o w H1 H2).
  - by rewrite (createZip_rejected o w e H1 H2).
Qed.

Lemma createZip_resets o w :
  files (component w) ≠ [] →
  component (snd (createZip o w)) = with_builder false 0%Q (component w).
Proof.
  intros Hne.
  destruct (build_cases o w) as [[H _]|[[H1 H2]|[H1 [e H2]]]]; [done| |].
  - by rewrite (createZip_resolved o w H1 H2).
  - by rewrite (createZip_rejected o w e H1 H2).
Qed.

(** C3: a call of [createZip] always returns normally and leaves the
    staging collection as it was.  When the serialization fails, the user
    sees exactly one toast, the generic error, the error is logged to the
    console, and nothing is downloaded.  A call that gets past the guard
    (non-empty collection), or that starts from the idle builder, ends
    with the builder idle and the progress at 0. *)
Theorem createZip_failure_contained o w :
  fst (createZip o w) = Returned tt
  ∧ files_after (createZip o) w = files (component w)
  ∧ (∀ e, files (component w) ≠ [] → generate_rejects o = Some e →
       toasts (emitted (createZip o) w) = [(true, "Failed to create ZIP file")]
       ∧ ConsoleError "Error creating ZIP:" e ∈ emitted (createZip o) w
       ∧ downloads (emitted (createZip o) w) = [])
  ∧ (files (component w) ≠ []
     ∨ (isCreatingZip (component w) = false ∧ zipProgress (component w) = 0%Q) →
       isCreatingZip (component (snd (createZip o w))) = false
       ∧ zipProgress (component (snd (createZip o w))) = 0%Q).
Proof.
  split; [apply createZip_returns|]. split; [apply createZip_files|]. split.
  - intros e Hne He. rewrite (build_emitted_rejected o w e Hne He).
    split; [by observe|]. split; [|by observe].
    rewrite !elem_of_app. right. right. set_solver.
  - intros [Hne|[Hb Hp]].
    + by rewrite (createZip_resets o w Hne).
    + destruct (decide (files (component w) = [])) as [H|H].
      * by rewrite (createZip_empty o w H).
      * by rewrite (createZip_resets o w H).
Qed.

Lemma createZip_failure_contained_witness :
  toasts (emitted (createZip (rejects_at 1700000000500)) two_staged)
    = [(true, "Failed to create ZIP file")]
  ∧ isCreatingZip (component (snd (createZip (rejects_at 1700000000500) two_staged)))
    = false
  ∧ zipProgress (component (snd (createZip (rejects_at 1700000000500) two_staged)))
    = 0%Q.
Proof.
  assert (files (component two_staged) ≠ []) as Hne by done.
  destruct (createZip_failure_contained (rejects_at 1700000000500) two_staged)
    as (_ & _ & H3 & H4).
  destruct (H3 "NotReadableError" Hne eq_refl) as (Ht & _ & _).
  destruct (H4 (or_introl Hne)) as [Hb Hp].
  exact (conj Ht (conj Hb Hp)).
Defined.

(** A build draws no id and touches neither the collection nor a
    preview handle. *)
Lemma createZip_handles o w :
  collection_writes (emitted (createZip o) w) = []
  ∧ created (emitted (createZip o) w) = []
  ∧ revoked (emitted (createZip o) w) = []
  ∧ drawn (emitted (createZip o) w) = [].
Proof.
  destruct (build_cases o w) as [[H _]|[[H1 H2]|[H1 [e H2]]]].
  - by rewrite (build_emitted_empty o w H).
  - rewrite (build_emitted_resolved o w H1 H2). repeat split; by observe.
  - rewrite (build_emitted_rejected o w e H1 H2). repeat split; by observe.
Qed.

Lemma createZip_trace o w :
  trace (snd (createZip o w)) = (trace w ++ emitted (createZip o) w)%list.
Proof.
  unfold emitted.
  destruct (build_cases o w) as [[H ->]|[[Hn H2]|[Hn [e H2]]]].
  - cbn. by rewrite drop_app_length.
  - rewrite (createZip_resolved o w Hn H2). cbn. by rewrite drop_app_length.
  - rewrite (createZip_rejected o w e Hn H2). cbn. by rewrite drop_app_length.
Qed.

(** C9: [createZip] never writes the staging collection: the collection
    after the call is the one before it, [setFiles] is not called, and no
    preview handle is minted or revoked.  Of all the actions of a session,
    only those that reach [addFiles], [removeFile] or [clearAllFiles] can
    change the collection. *)
Theorem createZip_preserves_collection o w :
  files_after (createZip o) w = files (component w)
  ∧ collection_writes (emitted (createZip o) w) = []
  ∧ created (emitted (createZip o) w) = []
  ∧ revoked (emitted (createZip o) w) = []
  ∧ (∀ a, files_after (handler a) w ≠ files (component w) →
          is_staging_action a = true).
Proof.
  split; [apply createZip_files|].
  destruct (createZip_handles o w) as (? & ? & ? & _).
  repeat split; try done.
  intros a Ha. destruct a; try done; exfalso; apply Ha;
    first [reflexivity | apply createZip_files].
Qed.

Lemma createZip_preserves_collection_witness :
  files_after (createZip (resolves_at 1700000000500)) two_staged
    = files (component two_staged)
  ∧ is_staging_action (ClickRemove "k3x9a1") = true.
Proof.
  destruct (createZip_preserves_collection (resolves_at 1700000000500) two_staged)
    as (H1 & _ & _ & _ & H5).
  split; [exact H1|]. apply (H5 (ClickRemove "k3x9a1")).
  intros H. apply (f_equal length) in H. vm_compute in H. discriminate H.
Defined.

(** ** JavaScript numbers: the rounding error *)

Module JSNumberFacts.
Import JSNumber.
Open Scope Q_scope.

Lemma two_pow_pos (e : Z) : 0 < 2 ^ e.
Proof. apply Qpower_0_lt. reflexivity. Qed.

Lemma two_pow_Z (a : Z) : (0 <= a)%Z -> inject_Z (2 ^ a) == 2 ^ a.
Proof. intros H. rewrite Zpower_Qpower by assumption. reflexivity. Qed.

Lemma two_pow_succ (e : Z) : 2 ^ (e + 1) == 2 * 2 ^ e.
Proof.
  rewrite Qpower_plus by (intros H; discriminate H). 
  rewrite Qpower_1_r. ring.
Qed.

Lemma two_pow_sub (a b : Z) : 2 ^ (a - b) * 2 ^ b == 2 ^ a.
Proof.
  rewrite <- Qpower_plus by (intros H; discriminate H).
  replace (a - b + b)%Z with a by lia. reflexivity.
Qed.

Lemma binade_spec (x : Q) :
  0 < x -> 2 ^ binade x <= x /\ x < 2 ^ (binade x + 1).
Proof.
  destruct x as [n d]. intros Hx.
  assert (Hn : (0 < n)%Z).
  { unfold Qlt in Hx. simpl in Hx. lia. }
  unfold binade. cbn [Qnum Qden].
  pose proof (Z.log2_spec n Hn) as [Ha1 Ha2].
  pose proof (Z.log2_spec (Zpos d) (Pos2Z.is_pos d)) as [Hb1 Hb2].
  pose proof (Z.log2_nonneg n) as Ha0.
  pose proof (Z.log2_nonneg (Zpos d)) as Hb0.
  set (a := Z.log2 n) in *. set (b := Z.log2 (Zpos d)) in *.
  assert (Hx' : n # d == inject_Z n / inject_Z (Zpos d)) by apply Qmake_Qdiv.
  assert (HA1 : 2 ^ a <= inject_Z n).
  { rewrite <- two_pow_Z by assumption. rewrite <- Zle_Qle. assumption. }
  assert (HA2 : inject_Z n < 2 * 2 ^ a).
  { rewrite <- two_pow_succ, <- two_pow_Z by lia. rewrite <- Zlt_Qlt. assumption. }
  assert (HB1 : 2 ^ b <= inject_Z (Zpos d)).
  { rewrite <- two_pow_Z by assumption. rewrite <- Zle_Qle. assumption. }
  assert (HB2 : inject_Z (Zpos d) < 2 * 2 ^ b).
  { rewrite <- two_pow_succ, <- two_pow_Z by lia. rewrite <- Zlt_Qlt. assumption. }
  pose proof (two_pow_pos a) as Pa. pose proof (two_pow_pos b) as Pb.
  pose proof (two_pow_sub a b) as Hab.
  pose proof (two_pow_pos (a - b)) as Pab.
  assert (Hd : 0 < inject_Z (Zpos d)) by exact (Qlt_le_trans _ _ _ Pb HB1).
  assert (Hxd : (n # d) * inject_Z (Zpos d) == inject_Z n).
  { rewrite Hx'. field. intros H. rewrite H in Hd. discriminate Hd. }
  destruct (Qle_bool (2 ^ (a - b)) (n # d)) eqn:Hcmp.
  - apply Qle_bool_iff in Hcmp. split; [assumption|].
    rewrite two_pow_succ.
    set (X := n # d) in *. set (D := inject_Z (Zpos d)) in *.
    set (N := inject_Z n) in *. set (A := 2 ^ a) in *. set (B := 2 ^ b) in *.
    set (C := 2 ^ (a - b)) in *.
    nra.
  - assert (Hlt : n # d < 2 ^ (a - b)).
    { apply Qnot_le_lt. intros H. apply Qle_bool_iff in H. congruence. }
    replace (a - b - 1 + 1)%Z with (a - b)%Z by lia. split; [|assumption].
    pose proof (two_pow_succ (a - b - 1)) as Hs.
    replace (a - b - 1 + 1)%Z with (a - b)%Z in Hs by lia.
    pose proof (two_pow_pos (a - b - 1)) as Pc.
    set (X := n # d) in *. set (D := inject_Z (Zpos d)) in *.
    set (N := inject_Z n) in *. set (A := 2 ^ a) in *. set (B := 2 ^ b) in *.
    set (C := 2 ^ (a - b)) in *. set (C' := 2 ^ (a - b - 1)) in *.
    nra.
Qed.

Lemma round_half_even_near (y : Q) :
  Qabs (inject_Z (round_half_even y) - y) <= 1 # 2.
Proof.
  unfold round_half_even.
  pose proof (Qfloor_le y) as H1. pose proof (Qlt_floor y) as H2.
  rewrite inject_Z_plus in H2. change (inject_Z 1) with 1 in H2.
  set (f := Qfloor y) in *.
  apply Qabs_Qle_condition.
  destruct (Qcompare (y - inject_Z f) (1 # 2)) eqn:Hc.
  - apply Qeq_alt in Hc.
    destruct (Z.even f); rewrite ?inject_Z_plus; change (inject_Z 1) with 1; lra.
  - apply Qlt_alt in Hc. lra.
  - apply Qgt_alt in Hc. rewrite inject_Z_plus. change (inject_Z 1) with 1. lra.
Qed.

Lemma round64_proper (x y : Q) : x == y -> round64 x = round64 y.
Proof. intros H. unfold round64. rewrite (Qred_complete _ _ H). reflexivity. Qed.

Lemma round_pos_error (x : Q) (E : Z) :
  0 < x -> x < 2 ^ (E + 1) -> (-1022 <= E)%Z ->
  Qabs (round_pos x - x) <= 2 ^ (E - 53).
Proof.
  intros Hx Hlt HE.
  destruct (binade_spec x Hx) as [Hb _].
  assert (He : (Z.max (binade x) (-1022) <= E)%Z).
  { apply Z.max_lub; [|assumption].
    destruct (Z_le_gt_dec (binade x) E) as [|Hgt]; [assumption|exfalso].
    assert (2 ^ (E + 1) <= 2 ^ binade x).
    { apply Qpower_le_compat_l; [lia|discriminate]. }
    lra. }
  unfold round_pos, ulp. set (e := Z.max (binade x) (-1022)) in *.
  pose proof (two_pow_pos (e - 52)) as Pu.
  pose proof (round_half_even_near (x / 2 ^ (e - 52))) as Hn.
  set (m := inject_Z (round_half_even (x / 2 ^ (e - 52)))) in *.
  assert (Hu : 2 ^ (e - 52) <= 2 * 2 ^ (E - 53)).
  { rewrite <- two_pow_succ. apply Qpower_le_compat_l; [lia|discriminate]. }
  apply Qabs_Qle_condition in Hn. apply Qabs_Qle_condition.
  set (u := 2 ^ (e - 52)) in *. set (U := 2 ^ (E - 53)) in *.
  assert (Hy : x / u * u == x) by (field; lra).
  set (y := x / u) in *.
  nra.
Qed.

Lemma round64_pos_eq (x : Q) : 0 < x -> round64 x == round_pos (Qred x).
Proof.
  intros Hx. unfold round64.
  assert (H : 0 < Qred x) by (rewrite Qred_correct; assumption).
  destruct (Qred x) as [n d] eqn:E. cbn [Qnum].
  destruct n; try (unfold Qlt in H; simpl in H; lia).
  apply Qred_correct.
Qed.

Lemma round64_error (x : Q) (E : Z) :
  0 < x -> x < 2 ^ (E + 1) -> (-1022 <= E)%Z ->
  Qabs (round64 x - x) <= 2 ^ (E - 53).
Proof.
  intros Hx Hlt HE. rewrite round64_pos_eq by assumption.
  rewrite <- (Qred_correct x) at 2.
  apply round_pos_error; [| |assumption]; rewrite Qred_correct; assumption.
Qed.

End JSNumberFacts.

(** [round64] and the binary64 unit of the machine compute the same
    checkpoints, for every build of up to 100 files. *)
Example checkpoints_are_binary64 : checkpoints_agree 100 = true.
Proof. vm_compute. reflexivity. Qed.

(** For three files the first two checkpoints are not 50/3 and 100/3 but
    the doubles 16.666666666666664 and 33.33333333333333. *)
Example checkpoints_of_three :
  checkpoint 3 <$> seq 0 3
  = [2345624805922133 # 140737488355328; 2345624805922133 # 70368744177664; 50]%Q.
Proof. vm_compute. reflexivity. Qed.

(** ** Progress checkpoints *)

Section Checkpoints.
Import JSNumber JSNumberFacts.
Open Scope Q_scope.

Lemma quotient_range (n i : nat) :
  (i < n)%nat -> (Z.of_nat n < 2 ^ 32)%Z ->
  1 # 4294967296 <= inject_Z (Z.of_nat (i + 1)) / inject_Z (Z.of_nat n) <= 1.
Proof.
  intros Hi Hn.
  assert (Hn' : (Z.of_nat n < 4294967296)%Z) by exact Hn.
  assert (H0 : 0 < inject_Z (Z.of_nat n)).
  { change 0 with (inject_Z 0). rewrite <- Zlt_Qlt. lia. }
  assert (H1 : inject_Z 1 <= inject_Z (Z.of_nat (i + 1))) by (rewrite <- Zle_Qle; lia).
  assert (H2 : inject_Z (Z.of_nat (i + 1)) <= inject_Z (Z.of_nat n)) by (rewrite <- Zle_Qle; lia).
  assert (H3 : inject_Z (Z.of_nat n) <= inject_Z 4294967296) by (rewrite <- Zle_Qle; lia).
  change (inject_Z 1) with 1 in H1. change (inject_Z 4294967296) with 4294967296 in H3.
  set (N := inject_Z (Z.of_nat n)) in *. set (I := inject_Z (Z.of_nat (i + 1))) in *.
  assert (Hq : I / N * N == I) by (field; lra).
  set (q := I / N) in *.
  split; nra.
Qed.

Lemma quotient_step (n i j : nat) :
  (i < j)%nat -> (j < n)%nat -> (Z.of_nat n < 2 ^ 32)%Z ->
  inject_Z (Z.of_nat (i + 1)) / inject_Z (Z.of_nat n) + (1 # 4294967296)
  <= inject_Z (Z.of_nat (j + 1)) / inject_Z (Z.of_nat n).
Proof.
  intros Hi Hj Hn.
  assert (Hn' : (Z.of_nat n < 4294967296)%Z) by exact Hn.
  assert (H0 : 0 < inject_Z (Z.of_nat n)).
  { change 0 with (inject_Z 0). rewrite <- Zlt_Qlt. lia. }
  assert (H1 : inject_Z (Z.of_nat (i + 1)) + 1 <= inject_Z (Z.of_nat (j + 1))).
  { change 1 with (inject_Z 1). rewrite <- inject_Z_plus, <- Zle_Qle. lia. }
  assert (H3 : inject_Z (Z.of_nat n) <= inject_Z 4294967296) by (rewrite <- Zle_Qle; lia).
  change (inject_Z 4294967296) with 4294967296 in H3.
  set (N := inject_Z (Z.of_nat n)) in *. set (I := inject_Z (Z.of_nat (i + 1))) in *.
  set (J := inject_Z (Z.of_nat (j + 1))) in *.
  assert (Hq : I / N * N == I) by (field; lra).
  assert (Hq' : J / N * N == J) by (field; lra).
  set (q := I / N) in *. set (q' := J / N) in *.
  nra.
Qed.

(** The two roundings of a checkpoint, for a quotient in (2^-32, 1]. *)
Lemma two_roundings (q : Q) :
  1 # 4294967296 <= q <= 1 ->
  Qabs (round64 q - q) <= 1 # 9007199254740992 /\
  Qabs (round64 (round64 q * 50) - round64 q * 50) <= 1 # 281474976710656.
Proof.
  intros [Hq1 Hq2].
  assert (E1 : Qabs (round64 q - q) <= 2 ^ (0 - 53)).
  { apply round64_error; [lra| |lia]. change (2 ^ (0 + 1)) with 2. lra. }
  change (2 ^ (0 - 53)) with (1 # 9007199254740992) in E1.
  split; [assumption|].
  apply Qabs_Qle_condition in E1.
  change (1 # 281474976710656) with (2 ^ (5 - 53)).
  apply round64_error; [lra| |lia].
  change (2 ^ (5 + 1)) with 64. lra.
Qed.

Lemma checkpoint_near (n i : nat) :
  (i < n)%nat -> (Z.of_nat n < 2 ^ 32)%Z ->
  Qabs (checkpoint n i - inject_Z (Z.of_nat (i + 1)) / inject_Z (Z.of_nat n) * 50)
  <= 1 # 100000000000000.
Proof.
  intros Hi Hn. unfold checkpoint, mul, div.
  pose proof (quotient_range n i Hi Hn) as Hq.
  destruct (two_roundings _ Hq) as [E1 E2].
  set (q := inject_Z (Z.of_nat (i + 1)) / inject_Z (Z.of_nat n)) in *.
  set (r := round64 q) in *. set (c := round64 (r * 50)) in *.
  apply Qabs_Qle_condition in E1, E2. apply Qabs_Qle_condition. lra.
Qed.

Lemma checkpoint_lt (n i j : nat) :
  (i < j)%nat -> (j < n)%nat -> (Z.of_nat n < 2 ^ 32)%Z ->
  checkpoint n i < checkpoint n j.
Proof.
  intros Hi Hj Hn. unfold checkpoint, mul, div.
  pose proof (quotient_range n i ltac:(lia) Hn) as Hq.
  pose proof (quotient_range n j Hj Hn) as Hq'.
  pose proof (quotient_step n i j Hi Hj Hn) as Hs.
  destruct (two_roundings _ Hq) as [E1 E2].
  destruct (two_roundings _ Hq') as [E1' E2'].
  set (q := inject_Z (Z.of_nat (i + 1)) / inject_Z (Z.of_nat n)) in *.
  set (q' := inject_Z (Z.of_nat (j + 1)) / inject_Z (Z.of_nat n)) in *.
  set (r := round64 q) in *. set (c := round64 (r * 50)) in *.
  set (r' := round64 q') in *. set (c' := round64 (r' * 50)) in *.
  apply Qabs_Qle_condition in E1, E2, E1', E2'. lra.
Qed.

Lemma checkpoint_last (n : nat) :
  (0 < n)%nat -> checkpoint n (n - 1) = 50.
Proof.
  intros Hn. unfold checkpoint, mul, div.
  replace (n - 1 + 1)%nat with n by lia.
  rewrite (round64_proper (inject_Z (Z.of_nat n) / inject_Z (Z.of_nat n)) 1).
  - vm_compute. reflexivity.
  - field. change 0 with (inject_Z 0). rewrite inject_Z_injective. lia.
Qed.

Lemma checkpoint_positive (n i : nat) :
  (i < n)%nat -> (Z.of_nat n < 2 ^ 32)%Z -> 0 < checkpoint n i.
Proof.
  intros Hi Hn. pose proof (checkpoint_near n i Hi Hn) as H.
  pose proof (quotient_range n i Hi Hn) as Hq.
  apply Qabs_Qle_condition in H. lra.
Qed.
End Checkpoints.

(** C8, as amended: a build of [n > 0] files (an array holds fewer than
    2^32) whose serialization resolves sets the progress to 0, then to the
    [n] checkpoints, the doubles [((i + 1) / n) * 50] for [i = 0 .. n-1],
    then to 75, 100 and back to 0; when the serialization rejects, 100 is
    skipped.  The checkpoints increase strictly, each is within 10^-14 of
    the exact [(i + 1) / n * 50], and the last one is 50. *)
Theorem createZip_progress o w :
  files (component w) ≠ [] →
  (Z.of_nat (length (files (component w))) < 2 ^ 32)%Z →
  let n := length (files (component w)) in
  let checkpoints := checkpoint n <$> seq 0 n in
  (generate_rejects o = None →
     progress_values (emitted (createZip o) w)
     = ([0%Q] ++ checkpoints ++ [75%Q; 100%Q; 0%Q])%list)
  ∧ (∀ e, generate_rejects o = Some e →
     progress_values (emitted (createZip o) w)
     = ([0%Q] ++ checkpoints ++ [75%Q; 0%Q])%list)
  ∧ length checkpoints = n
  ∧ (∀ i j, (i < j)%nat → (j < n)%nat → (checkpoint n i < checkpoint n j)%Q)
  ∧ (∀ i, (i < n)%nat →
       (Qabs (checkpoint n i
              - inject_Z (Z.of_nat (i + 1)) / inject_Z (Z.of_nat n) * 50)
        <= 1 # 100000000000000)%Q)
  ∧ checkpoint n (n - 1) = 50%Q.
Proof.
  intros Hne Hlt n checkpoints.
  assert (0 < n)%nat as Hn.
  { unfold n. destruct (files (component w)); [done|]. simpl. lia. }
  split; [|split; [|split; [|split; [|split]]]].
  - intros Hgen. rewrite (build_emitted_resolved o w Hne Hgen). by observe.
  - intros e Hgen. rewrite (build_emitted_rejected o w e Hne Hgen). by observe.
  - unfold checkpoints. by rewrite length_fmap, length_seq.
  - intros i j Hi Hj. by apply checkpoint_lt.
  - intros i Hi. by apply checkpoint_near.
  - by apply checkpoint_last.
Qed.

Lemma createZip_progress_witness :
  progress_values (emitted (createZip (resolves_at 1700000000500)) two_staged)
    = [0; checkpoint 2 0; checkpoint 2 1; 75; 100; 0]%Q
  ∧ progress_values (emitted (createZip (rejects_at 1700000000500)) two_staged)
    = [0; checkpoint 2 0; checkpoint 2 1; 75; 0]%Q
  ∧ (checkpoint 2 0 < checkpoint 2 1)%Q
  ∧ checkpoint 2 1 = 50%Q.
Proof.
  assert (files (component two_staged) ≠ []) as Hne by done.
  assert (Z.of_nat (length (files (component two_staged))) < 2 ^ 32)%Z as Hlt
    by (vm_compute; reflexivity).
  destruct (createZip_progress (resolves_at 1700000000500) two_staged Hne Hlt)
    as (H1 & _ & _ & H4 & _ & H6).
  destruct (createZip_progress (rejects_at 1700000000500) two_staged Hne Hlt)
    as (_ & H2 & _ & _ & _ & _).
  split; [exact (H1 eq_refl)|]. split; [exact (H2 _ eq_refl)|].
  split; [apply (H4 0%nat 1%nat); simpl; lia | exact H6].
Defined.

(** C8, as stated, fails: when the serialization rejects, the progress
    goes 0, 25, 50, 75 and back to 0 without passing 100. *)
Lemma progress_skips_100_on_rejection :
  ¬ (∀ o w, files (component w) ≠ [] →
       let n := length (files (component w)) in
       progress_values (emitted (createZip o) w)
       = ([0%Q] ++ (checkpoint n <$> seq 0 n) ++ [75%Q; 100%Q; 0%Q])%list).
Proof.
  intros H.
  specialize (H (rejects_at 1700000000500) two_staged ltac:(done)).
  vm_compute in H. discriminate H.
Qed.

(** ** The staging list *)

Lemma staged_files o (l : list File) : file <$> imap (staged o) l = l.
Proof.
  apply list_eq. intros i. rewrite list_lookup_fmap, list_lookup_imap.
  by destruct (l !! i).
Qed.

Lemma staged_ids o (l : list File) :
  id <$> imap (staged o) l = random_id o <$> seq 0 (length l).
Proof.
  apply list_eq. intros i.
  rewrite !list_lookup_fmap, list_lookup_imap.
  destruct (l !! i) as [f|] eqn:Hf; cbn.
  - rewrite lookup_seq_lt; [done|]. by apply lookup_lt_Some in Hf.
  - rewrite lookup_seq_ge; [done|]. by apply lookup_ge_None in Hf.
Qed.

Lemma drawn_staging o (l : list File) : ∀ k,
  drawn (concat (imap (λ j, staging_events o (k + j)) l))
  = id <$> imap (λ j, staged o (k + j)) l.
Proof.
  induction l as [|f l IH]; intros k; [done|].
  rewrite !imap_cons. cbn [concat fmap list_fmap]. unfold drawn in *.
  rewrite omap_app.
  rewrite (imap_ext _ (λ j, staging_events o (S k + j))),
          (imap_ext (_ ∘ S) (λ j, staged o (S k + j)));
    [|intros; unfold compose; f_equal; lia..].
  rewrite IH. unfold staging_events at 1, staged at 1.
  rewrite Nat.add_0_r. by destruct (is_image f).
Qed.

Lemma created_staging o (l : list File) : ∀ k,
  created (concat (imap (λ j, staging_events o (k + j)) l))
  = live (imap (λ j, staged o (k + j)) l).
Proof.
  induction l as [|f l IH]; intros k; [done|].
  rewrite !imap_cons. cbn [concat]. unfold created, live in *.
  rewrite omap_app.
  rewrite (imap_ext _ (λ j, staging_events o (S k + j))),
          (imap_ext (_ ∘ S) (λ j, staged o (S k + j)));
    [|intros; unfold compose; f_equal; lia..].
  rewrite IH. unfold staging_events at 1, staged at 1.
  rewrite Nat.add_0_r. by destruct (is_image f) eqn:E; cbn; rewrite ?E.
Qed.

Lemma other_staging o (l : list File) :
  revoked (concat (imap (staging_events o) l)) = []
  ∧ toasts (concat (imap (staging_events o) l)) = [].
Proof.
  change (staging_events o) with (λ j, staging_events o (0 + j)).
  generalize 0. induction l as [|f l IH]; intros k; [done|].
  rewrite !imap_cons. cbn [concat]. unfold revoked, toasts in *.
  rewrite !omap_app.
  rewrite (imap_ext _ (λ j, staging_events o (S k + j)));
    [|intros; unfold compose; f_equal; lia].
  destruct (IH (S k)) as [-> ->]. unfold staging_events.
  by destruct (is_image f).
Qed.

(** What [addFiles] does to the collection, the random source and the
    handles. *)
Lemma addFiles_effect o fs w :
  files_after (addFiles o fs) w = (files (component w) ++ imap (staged o) fs)%list
  ∧ drawn (emitted (addFiles o fs) w) = id <$> imap (staged o) fs
  ∧ created (emitted (addFiles o fs) w) = live (imap (staged o) fs)
  ∧ revoked (emitted (addFiles o fs) w) = []
  ∧ toasts (emitted (addFiles o fs) w)
    = [(false, "Added " ++ string_of_nat (length fs) ++ " file(s)")].
Proof.
  unfold files_after.
  erewrite (emitted_app (addFiles o fs) w); [|rewrite addFiles_run; reflexivity].
  rewrite addFiles_run. cbn [snd component with_files files].
  destruct (other_staging o fs) as [Hr Ht].
  unfold drawn, created, revoked, toasts in *. rewrite !omap_app, Hr, Ht.
  cbn [omap list_omap]. rewrite !app_nil_r.
  split; [done|]. split; [apply (drawn_staging o fs 0)|].
  split; [apply (created_staging o fs 0)|]. done.
Qed.

Lemma minted_staging o (l : list File) : ∀ k,
  minted (concat (imap (λ j, staging_events o (k + j)) l))
  = held (imap (λ j, staged o (k + j)) l).
Proof.
  induction l as [|f l IH]; intros k; [done|].
  rewrite !imap_cons. cbn [concat]. unfold minted, held in *.
  rewrite omap_app.
  rewrite (imap_ext _ (λ j, staging_events o (S k + j))),
          (imap_ext (_ ∘ S) (λ j, staged o (S k + j)));
    [|intros; unfold compose; f_equal; lia..].
  rewrite IH. unfold staging_events at 1, staged at 1.
  rewrite Nat.add_0_r. by destruct (is_image f) eqn:E; cbn; rewrite ?E.
Qed.

Lemma addFiles_minted o fs w :
  minted (emitted (addFiles o fs) w) = held (imap (staged o) fs).
Proof.
  erewrite (emitted_app (addFiles o fs) w); [|rewrite addFiles_run; reflexivity].
  unfold minted. rewrite omap_app. cbn [omap list_omap]. rewrite app_nil_r.
  apply (minted_staging o fs 0).
Qed.

(** C6, as amended: [addFiles] appends one entry per input file, in input
    order, after the entries already staged, which it leaves as they are;
    the id of each new entry is the value drawn from the random source
    for it (one draw per file), compared with no other id, so the ids are
    pairwise distinct when the draws do not collide, and only then; an
    entry has a preview handle exactly when the MIME type of its file
    starts with [image/], the one that [URL.createObjectURL] minted for
    that file; and the user gets one success toast with the number of
    files added. *)
Theorem addFiles_appends o newFiles w :
  let items := imap (staged o) newFiles in
  fst (addFiles o newFiles w) = Returned tt
  ∧ files_after (addFiles o newFiles) w = (files (component w) ++ items)%list
  ∧ length (files_after (addFiles o newFiles) w)
    = length (files (component w)) + length newFiles
  ∧ file <$> items = newFiles
  ∧ drawn (emitted (addFiles o newFiles) w) = id <$> items
  ∧ id <$> items = random_id o <$> seq 0 (length newFiles)
  ∧ (NoDup (id <$> files_after (addFiles o newFiles) w)
     ↔ NoDup ((id <$> files (component w))
              ++ (random_id o <$> seq 0 (length newFiles))))
  ∧ (∀ i f, newFiles !! i = Some f →
       ∃ item, items !! i = Some item
         ∧ file item = f
         ∧ id item = random_id o i
         ∧ (is_Some (preview item) ↔ String.prefix "image/" (type f) = true))
  ∧ minted (emitted (addFiles o newFiles) w) = held items
  ∧ created (emitted (addFiles o newFiles) w) = live items
  ∧ toasts (emitted (addFiles o newFiles) w)
    = [(false, "Added " ++ string_of_nat (length newFiles) ++ " file(s)")].
Proof.
  intros items.
  destruct (addFiles_effect o newFiles w) as (Hfs & Hdrawn & Hcreated & _ & Htoast).
  split; [by rewrite addFiles_run|]. split; [exact Hfs|].
  split; [by rewrite Hfs, length_app; unfold items; rewrite length_imap|].
  split; [apply staged_files|]. split; [exact Hdrawn|].
  split; [apply staged_ids|].
  split; [by rewrite Hfs, fmap_app; unfold items; rewrite staged_ids|].
  split; [|split; [apply addFiles_minted|by split]].
  intros i f Hf. exists (staged o i f). unfold items.
  rewrite list_lookup_imap, Hf. repeat split; try done.
  - unfold staged, is_image. cbn. by destruct (String.prefix _ _); intros [? ?].
  - unfold staged, is_image. cbn. intros ->. eauto.
Qed.

Lemma addFiles_appends_witness :
  files_after (addFiles distinct_draws [a_txt; b_png]) initial
    = [staged distinct_draws 0 a_txt; staged distinct_draws 1 b_png]
  ∧ NoDup (id <$> files_after (addFiles distinct_draws [a_txt; b_png]) initial)
  ∧ minted (emitted (addFiles distinct_draws [a_txt; b_png]) initial)
    = [(b_png, BlobURL "3f0c-1")]
  ∧ ∃ item, imap (staged distinct_draws) [a_txt; b_png] !! 1 = Some item
      ∧ file item = b_png ∧ id item = "k3x9a1" ∧ is_Some (preview item).
Proof.
  destruct (addFiles_appends distinct_draws [a_txt; b_png] initial)
    as (_ & H1 & _ & _ & _ & _ & H4 & H5 & H6 & _).
  split; [exact H1|]. split.
  { apply H4. apply (bool_decide_unpack _); vm_compute; exact I. }
  split; [exact H6|].
  destruct (H5 1 b_png eq_refl) as (item & Hi & Hf & Hid & Hp).
  exists item. repeat split; try done. by apply Hp.
Defined.

(** C6, as stated, fails: the ids are not fresh.  When the random source
    yields two short draws, the two entries that one call stages both get
    the empty id. *)
Lemma addFiles_ids_not_fresh :
  ¬ (∀ o newFiles w,
       NoDup (id <$> files (component w)) →
       NoDup (id <$> files_after (addFiles o newFiles) w)).
Proof.
  intros H.
  specialize (H short_draws [b_png; c_gif] initial ltac:(constructor)).
  apply (bool_decide_pack _) in H. vm_compute in H. exact H.
Qed.

Lemma filter_all {A} (P : A → Prop) `{∀ x, Decision (P x)} (l : list A) :
  Forall P l → filter P l = l.
Proof.
  induction 1 as [|x l Hx _ IH]; [done|].
  by rewrite filter_cons_True, IH.
Qed.

Lemma find_first i (l1 l2 : list FileItem) f :
  Forall (λ g, id g ≠ i) l1 → id f = i →
  List.find (λ g, String.eqb (id g) i) (l1 ++ f :: l2) = Some f.
Proof.
  intros H1 Hf. induction H1 as [|g l1 Hg _ IH]; cbn.
  - by rewrite (proj2 (String.eqb_eq _ _) Hf).
  - by rewrite (proj2 (String.eqb_neq _ _) Hg).
Qed.

Lemma find_absent i (l : list FileItem) :
  Forall (λ g, id g ≠ i) l → List.find (λ g, String.eqb (id g) i) l = None.
Proof.
  induction 1 as [|g l Hg _ IH]; cbn; [done|].
  by rewrite (proj2 (String.eqb_neq _ _) Hg).
Qed.

(** A collection with distinct ids splits around the entry with id [i]. *)
Lemma split_at_id i (fs : list FileItem) :
  NoDup (id <$> fs) → i ∈ id <$> fs →
  ∃ l1 f l2, fs = (l1 ++ f :: l2)%list ∧ id f = i
    ∧ Forall (λ g, id g ≠ i) l1 ∧ Forall (λ g, id g ≠ i) l2.
Proof.
  intros Hnd Hin.
  apply list_elem_of_fmap in Hin as (f & Hf & Hin).
  apply list_elem_of_split in Hin as (l1 & l2 & ->).
  exists l1, f, l2. split; [done|]. split; [done|].
  rewrite fmap_app, fmap_cons in Hnd.
  apply NoDup_app in Hnd as (_ & Hl1 & Hl2).
  apply NoDup_cons in Hl2 as [Hl2 _].
  split; apply Forall_forall; intros g Hg Heq.
  - apply (Hl1 (id g)); [by apply list_elem_of_fmap_2|].
    rewrite Heq, Hf. left.
  - apply Hl2. rewrite <- Hf, <- Heq. by apply list_elem_of_fmap_2.
Qed.

(** C5, as amended: in a collection whose ids are pairwise distinct,
    [removeFile i] with [i] present takes out the one entry with that id
    and keeps the others in order, so the length drops by exactly 1, and
    it revokes the preview handle of that entry if it has one (and no
    other handle); with [i] absent it leaves the collection as it was and
    revokes nothing. *)
Theorem removeFile_distinct_ids i w :
  NoDup (id <$> files (component w)) →
  fst (removeFile i w) = Returned tt
  ∧ (i ∈ id <$> files (component w) →
       ∃ l1 f l2,
         files (component w) = (l1 ++ f :: l2)%list ∧ id f = i
         ∧ files_after (removeFile i) w = (l1 ++ l2)%list
         ∧ S (length (files_after (removeFile i) w)) = length (files (component w))
         ∧ revoked (emitted (removeFile i) w) = option_list (preview f))
  ∧ (i ∉ id <$> files (component w) →
       files_after (removeFile i) w = files (component w)
       ∧ revoked (emitted (removeFile i) w) = []).
Proof.
  intros Hnd. unfold files_after.
  erewrite (emitted_app (removeFile i) w); [|rewrite removeFile_run; reflexivity].
  rewrite removeFile_run. cbn [fst snd component with_files files].
  split; [done|]. split.
  - intros Hin.
    destruct (split_at_id i _ Hnd Hin) as (l1 & f & l2 & Hfs & Hf & H1 & H2).
    exists l1, f, l2. rewrite Hfs.
    rewrite filter_app, filter_cons_False, !filter_all by (done || by intros ?).
    rewrite (find_first i l1 l2 f H1 Hf).
    repeat split; try done.
    + rewrite !length_app. simpl. lia.
    + observe. rewrite app_nil_r. cbn. by destruct (preview f).
  - intros Hout.
    assert (Forall (λ g, id g ≠ i) (files (component w))) as Hall.
    { apply Forall_forall. intros g Hg Heq. apply Hout.
      rewrite <- Heq. by apply list_elem_of_fmap_2. }
    rewrite (filter_all _ _ Hall), (find_absent _ _ Hall). by observe.
Qed.

Lemma removeFile_distinct_ids_witness :
  NoDup (id <$> files (component two_staged))
  ∧ "k3x9a1" ∈ id <$> files (component two_staged)
  ∧ ∃ l1 f l2,
      files (component two_staged) = (l1 ++ f :: l2)%list ∧ id f = "k3x9a1"
      ∧ files_after (removeFile "k3x9a1") two_staged = (l1 ++ l2)%list
      ∧ S (length (files_after (removeFile "k3x9a1") two_staged))
        = length (files (component two_staged))
      ∧ revoked (emitted (removeFile "k3x9a1") two_staged) = option_list (preview f).
Proof.
  assert (NoDup (id <$> files (component two_staged))) as Hnd.
  { apply (bool_decide_unpack _); vm_compute; exact I. }
  assert ("k3x9a1" ∈ id <$> files (component two_staged)) as Hin.
  { apply (bool_decide_unpack _); vm_compute; exact I. }
  split; [exact Hnd|]. split; [exact Hin|].
  destruct (removeFile_distinct_ids "k3x9a1" two_staged Hnd) as (_ & H & _).
  exact (H Hin).
Defined.

(** C5, as stated, fails: with two entries staged under the same id
    (both draws of the random source had short expansions),
    [removeFile] of that id takes out both, so the length drops by 2. *)
Lemma removeFile_colliding_ids_drops_two :
  ¬ (∀ i w, i ∈ id <$> files (component w) →
       S (length (files_after (removeFile i) w)) = length (files (component w))).
Proof.
  intros H. specialize (H "" two_images_one_id).
  assert ("" ∈ id <$> files (component two_images_one_id)) as Hin.
  { apply (bool_decide_unpack _); vm_compute; exact I. }
  specialize (H Hin). vm_compute in H. discriminate H.
Qed.

(** ** Sessions *)

Lemma handleDrop_run o fs w :
  handleDrop o fs w =
    addFiles o fs {| component := with_files (files (component w))
                                    {| files := files (component w); isDragging := false;
                                       isCreatingZip := isCreatingZip (component w);
                                       zipProgress := zipProgress (component w) |};
                     trace := (trace w ++ [PreventDefault; SetIsDragging false])%list |}.
Proof.
  unfold handleDrop, bind, preventDefault, setIsDragging, bind, update, emit.
  cbn [component trace]. by rewrite <- app_assoc.
Qed.

Lemma handleDrag_run b w :
  (preventDefault ;;; setIsDragging b) w =
    (Returned tt,
     {| component := {| files := files (component w); isDragging := b;
                        isCreatingZip := isCreatingZip (component w);
                        zipProgress := zipProgress (component w) |};
        trace := (trace w ++ [PreventDefault; SetIsDragging b])%list |}).
Proof.
  unfold bind, preventDefault, setIsDragging, bind, update, emit.
  cbn [component trace]. by rewrite <- app_assoc.
Qed.

Lemma step_effect w a :
  ∃ l, trace (step w a) = (trace w ++ l)%list ∧ effect_of w a l.
Proof.
  unfold step.
  destruct a as [| |o fs|o [fs|]|i| |o]; cbn [handler].
  - unfold handleDragOver. rewrite handleDrag_run.
    eexists. split; [reflexivity|]. apply (Staged _ _ _ []); try done.
    unfold files_after. cbn. by rewrite app_nil_r.
  - unfold handleDragLeave. rewrite handleDrag_run.
    eexists. split; [reflexivity|]. apply (Staged _ _ _ []); try done.
    unfold files_after. cbn. by rewrite app_nil_r.
  - set (w' := {| component := with_files (files (component w))
                                    {| files := files (component w); isDragging := false;
                                       isCreatingZip := isCreatingZip (component w);
                                       zipProgress := zipProgress (component w) |};
                     trace := (trace w ++ [PreventDefault; SetIsDragging false])%list |}).
    destruct (addFiles_effect o fs w') as (H1 & H2 & H3 & H4 & _).
    exists ([PreventDefault; SetIsDragging false] ++ emitted (addFiles o fs) w')%list.
    split.
    + rewrite handleDrop_run. fold w'. unfold emitted.
      rewrite addFiles_run. cbn [snd trace]. rewrite drop_app_length.
      unfold w'. cbn [component trace]. by rewrite <- !app_assoc.
    + apply (Staged _ _ _ (imap (staged o) fs)); try done.
      unfold files_after in *. cbn [handler]. rewrite handleDrop_run. by fold w'.
  - destruct (addFiles_effect o fs w) as (H1 & H2 & H3 & H4 & _).
    exists (emitted (addFiles o fs) w). split.
    + cbn [handleFileInput]. unfold emitted. rewrite addFiles_run. cbn [snd trace].
      by rewrite drop_app_length.
    + by apply (Staged _ _ _ (imap (staged o) fs)).
  - exists []. split; [by rewrite app_nil_r|]. apply (Staged _ _ _ []); try done.
    unfold files_after. cbn. by rewrite app_nil_r.
  - eexists. split; [by rewrite removeFile_run|].
    apply (Removed _ _ _ i); unfold files_after; cbn [handler];
      rewrite ?removeFile_run; observe; by rewrite ?app_nil_r.
  - eexists. split; [by rewrite clearAllFiles_run|].
    apply Cleared; unfold files_after; cbn [handler];
      rewrite ?clearAllFiles_run; observe; by rewrite ?app_nil_r.
  - destruct (createZip_handles o w) as (_ & H3 & H4 & H5).
    exists (emitted (createZip o) w). split; [apply createZip_trace|].
    apply (Staged _ _ _ []); try done.
    unfold files_after. cbn [handler]. rewrite app_nil_r. apply createZip_files.
Qed.

Lemma live_app (l1 l2 : list FileItem) : live (l1 ++ l2) = (live l1 ++ live l2)%list.
Proof. apply omap_app. Qed.

(** Removing by id in a collection with distinct ids releases what the
    removed entry held. *)
Lemma live_remove i (fs : list FileItem) :
  NoDup (id <$> fs) →
  live fs ≡ₚ (live (filter (λ f, id f ≠ i) fs)
              ++ option_list (List.find (λ f, String.eqb (id f) i) fs ≫= preview))%list.
Proof.
  intros Hnd. destruct (decide (i ∈ id <$> fs)) as [Hin|Hout].
  - destruct (split_at_id i fs Hnd Hin) as (l1 & f & l2 & -> & Hf & H1 & H2).
    rewrite filter_app, filter_cons_False, !filter_all by (done || by intros ?).
    rewrite (find_first i l1 l2 f H1 Hf). rewrite !live_app.
    replace (live (f :: l2)) with (option_list (preview f) ++ live l2)%list
      by (unfold live; cbn; by destruct (preview f)).
    cbn [mbind option_bind].
    rewrite <- app_assoc. apply Permutation_app_head, Permutation_app_comm.
  - assert (Forall (λ g, id g ≠ i) fs) as Hall.
    { apply Forall_forall. intros g Hg Heq. apply Hout.
      rewrite <- Heq. by apply list_elem_of_fmap_2. }
    rewrite (filter_all _ _ Hall), (find_absent _ _ Hall). cbn. by rewrite app_nil_r.
Qed.

Lemma step_invariants w a :
  NoDup (drawn (trace (step w a))) →
  balanced w → ids_drawn w → balanced (step w a) ∧ ids_drawn (step w a).
Proof.
  intros Hnd Hb Hi. destruct (step_effect w a) as (l & Hl & He).
  unfold balanced, ids_drawn in *. rewrite Hl in *.
  change (files (component (step w a))) with (files_after (handler a) w).
  assert (NoDup (id <$> files (component w))) as Hids.
  { eapply sublist_NoDup; [|exact Hi].
    unfold drawn in Hnd. rewrite omap_app in Hnd. by apply NoDup_app in Hnd as [? _]. }
  unfold created, revoked, drawn in *. rewrite !omap_app.
  destruct He as [items H1 H2 H3 H4|i H1 H2 H3 H4|H1 H2 H3 H4];
    unfold created, revoked, drawn in *; rewrite H1, H2, H3, H4.
  - split.
    + rewrite live_app, app_nil_r, Hb.
      rewrite <- !app_assoc. apply Permutation_app_head, Permutation_app_comm.
    + rewrite fmap_app. by apply sublist_app.
  - split.
    + rewrite app_nil_r, Hb. rewrite (live_remove i _ Hids) at 1.
      rewrite <- !app_assoc. apply Permutation_app_head, Permutation_app_comm.
    + rewrite app_nil_r. etrans; [|exact Hi].
      apply fmap_sublist, sublist_filter.
  - split.
    + rewrite app_nil_r, Hb. cbn. apply Permutation_app_comm.
    + apply sublist_nil_l.
Qed.

Lemma run_snoc acts a w : run (acts ++ [a]) w = step (run acts w) a.
Proof. unfold run. by rewrite foldl_app. Qed.

Lemma run_invariants acts :
  NoDup (drawn (trace (run acts initial))) →
  balanced (run acts initial) ∧ ids_drawn (run acts initial).
Proof.
  induction acts as [|a acts IH] using rev_ind; intros Hnd.
  - split; [unfold balanced; by cbn|]. unfold ids_drawn. cbn. constructor.
  - rewrite run_snoc in *.
    destruct (step_effect (run acts initial) a) as (l & Hl & _).
    destruct IH as [Hb Hi].
    { rewrite Hl in Hnd. unfold drawn in *. rewrite omap_app in Hnd.
      by apply NoDup_app in Hnd as [? _]. }
    by apply step_invariants.
Qed.

(** C7, as amended: in every session in which the random source never
    repeated an id (and the platform minted distinct URLs), the handles
    minted so far are exactly those still held by staged entries together
    with those revoked; no handle is revoked twice, and a minted handle
    has been revoked exactly when no staged entry holds it any more.
    From any state, [clearAllFiles] revokes the handle of every staged
    entry, once each, and leaves the collection empty. *)
Theorem previews_released_once acts :
  NoDup (drawn (trace (run acts initial))) →
  NoDup (created (trace (run acts initial))) →
  let w := run acts initial in
  created (trace w) ≡ₚ (live (files (component w)) ++ revoked (trace w))%list
  ∧ NoDup (revoked (trace w))
  ∧ (∀ u, u ∈ created (trace w) →
          (u ∈ revoked (trace w) ↔ u ∉ live (files (component w))))
  ∧ (∀ w', files_after clearAllFiles w' = []
           ∧ revoked (emitted clearAllFiles w') = live (files (component w'))).
Proof.
  intros Hdrawn Hcreated w.
  destruct (run_invariants acts Hdrawn) as [Hb _]. fold w in Hb, Hcreated.
  unfold balanced in Hb.
  assert (NoDup (live (files (component w)) ++ revoked (trace w))) as Hnd.
  { by rewrite <- Hb. }
  apply NoDup_app in Hnd as (_ & Hdisj & Hrev).
  split; [exact Hb|]. split; [exact Hrev|]. split.
  - intros u Hu. rewrite Hb in Hu. apply elem_of_app in Hu. split.
    + intros Hr Hl. by apply (Hdisj u).
    + intros Hl. by destruct Hu.
  - intros w'. unfold files_after.
    erewrite (emitted_app clearAllFiles w'); [|rewrite clearAllFiles_run; reflexivity].
    rewrite clearAllFiles_run. split; [done|]. observe. by rewrite app_nil_r.
Qed.

Lemma previews_released_once_witness :
  NoDup (drawn (trace (run sample_session initial)))
  ∧ NoDup (created (trace (run sample_session initial)))
  ∧ created (trace (run sample_session initial))
    ≡ₚ (live (files (component (run sample_session initial)))
        ++ revoked (trace (run sample_session initial)))%list
  ∧ NoDup (revoked (trace (run sample_session initial))).
Proof.
  set (w := run sample_session initial).
  assert (NoDup (drawn (trace w))) as H1
    by (apply (bool_decide_unpack _); vm_compute; exact I).
  assert (NoDup (created (trace w))) as H2
    by (apply (bool_decide_unpack _); vm_compute; exact I).
  split; [exact H1|]. split; [exact H2|].
  destruct (previews_released_once _ H1 H2) as (H3 & H4 & _).
  exact (conj H3 H4).
Defined.

(** C7, as stated, fails: two images staged under the same id, then
    [removeFile] of that id.  Both entries leave the collection, the
    handle of the first is revoked, the handle of the second never is. *)
Lemma preview_leaks_under_colliding_ids :
  ¬ (∀ acts, NoDup (created (trace (run acts initial))) →
       ∀ u, u ∈ created (trace (run acts initial)) →
            (u ∈ revoked (trace (run acts initial))
             ↔ u ∉ live (files (component (run acts initial))))).
Proof.
  intros H. set (acts := colliding_session).
  assert (NoDup (created (trace (run acts initial)))) as Hnd
    by (apply (bool_decide_unpack _); vm_compute; exact I).
  assert (BlobURL "3f0c-1" ∈ created (trace (run acts initial))) as Hin
    by (apply (bool_decide_unpack _); vm_compute; exact I).
  destruct (H acts Hnd _ Hin) as [_ Hrev].
  assert (BlobURL "3f0c-1" ∉ revoked (trace (run acts initial))) as Hout
    by (apply (bool_decide_unpack _); vm_compute; exact I).
  apply Hout, Hrev.
  apply (bool_decide_unpack _); vm_compute; exact I.
Qed.

(** ** The archive *)

(** *** Folders *)

Lemma substring_0_length (s : string) : ∀ j,
  (j ≤ String.length s)%nat → String.length (substring 0 j s) = j.
Proof.
  induction s as [|c s IH]; intros [|j] Hj; cbn in *; try done; try lia.
  rewrite IH; [done|lia].
Qed.

Lemma lastIndexOf_slash_bound (s : string) : ∀ i j,
  lastIndexOf_slash i s = Some j → (i ≤ j < i + String.length s)%nat.
Proof.
  induction s as [|c s IH]; intros i j H; [done|].
  cbn [lastIndexOf_slash String.length] in *.
  destruct (lastIndexOf_slash (S i) s) as [k|] eqn:Hk.
  - injection H as <-. apply IH in Hk. lia.
  - destruct (Ascii.eqb c "/"); [|done]. injection H as <-. lia.
Qed.

Lemma lastIndexOf_slash_flat (s : string) : ∀ i,
  contains "/" s = false → lastIndexOf_slash i s = None.
Proof.
  induction s as [|c s IH]; intros i H; [done|].
  cbn [contains lastIndexOf_slash] in *.
  apply orb_false_iff in H as [Hc Hs]. by rewrite IH, Hc.
Qed.

Lemma ends_with_slash_flat (s : string) :
  contains "/" s = false → ends_with_slash s = false.
Proof.
  induction s as [|c s IH]; intros H; [done|].
  cbn [contains] in H. apply orb_false_iff in H as [Hc Hs].
  cbn [ends_with_slash]. destruct s; [done|]. by apply IH.
Qed.

Lemma ends_with_slash_nonempty (s : string) :
  ends_with_slash s = true → (0 < String.length s)%nat.
Proof. destruct s; [done|]. cbn. lia. Qed.

Lemma forceTrailingSlash_length (s : string) :
  ends_with_slash (forceTrailingSlash s) = true
  ∧ (String.length (forceTrailingSlash s) ≤ String.length s + 1)%nat.
Proof.
  unfold forceTrailingSlash. destruct (ends_with_slash s) eqn:E.
  - split; [done|lia].
  - split.
    + clear E. induction s as [|c s IH]; [done|].
      change (String c s +:+ "/") with (String c (s +:+ "/")).
      destruct s as [|a s]; [done|].
      change (String a s +:+ "/") with (String a (s +:+ "/")) in *.
      exact IH.
    + clear E. induction s as [|c s IH]; [done|].
      change (String c s +:+ "/") with (String c (s +:+ "/")).
      cbn [String.length] in *. lia.
Qed.

(** A parent folder is shorter than its path, by two characters when the
    path ends with a slash. *)
Lemma parentFolder_length (p : string) :
  parentFolder p ≠ "" →
  (String.length (parentFolder p) + (if ends_with_slash p then 2 else 1)
   ≤ String.length p)%nat.
Proof.
  unfold parentFolder. intros H.
  destruct (ends_with_slash p) eqn:E.
  - pose proof (ends_with_slash_nonempty p E) as Hp.
    pose proof (substring_0_length p (String.length p - 1) ltac:(lia)) as Hl.
    destruct (lastIndexOf_slash 0 _) as [j|] eqn:Hj; [|done].
    apply lastIndexOf_slash_bound in Hj.
    destruct (0 <? j)%nat; [|done].
    rewrite substring_0_length by lia. lia.
  - destruct (lastIndexOf_slash 0 p) as [j|] eqn:Hj; [|done].
    apply lastIndexOf_slash_bound in Hj.
    destruct (0 <? j)%nat; [|done].
    rewrite substring_0_length by lia. lia.
Qed.

Lemma parentFolder_flat (n : string) :
  contains "/" n = false → parentFolder n = "".
Proof.
  intros H. unfold parentFolder.
  by rewrite (ends_with_slash_flat n H), (lastIndexOf_slash_flat n 0 H).
Qed.

(** [folderAdd] reaches the top within [String.length name] levels: a
    larger bound gives the same container. *)
Lemma folderAdd_depth (d1 : nat) : ∀ d2 name (zip : JSZip),
  (String.length name ≤ d1)%nat → (String.length name ≤ d2)%nat →
  folderAdd d1 name zip = folderAdd d2 name zip.
Proof.
  induction d1 as [|d1 IH]; intros d2 name zip H1 H2.
  - destruct d2 as [|d2]; [done|].
    cbn [folderAdd]. destruct (zip !! forceTrailingSlash name); [done|].
    destruct (String.eqb_spec (parentFolder (forceTrailingSlash name)) "") as [|Hp];
      [done|].
    apply parentFolder_length in Hp.
    destruct (forceTrailingSlash_length name) as [-> Hl] in Hp. lia.
  - cbn [folderAdd]. destruct (zip !! forceTrailingSlash name) eqn:Hz.
    { destruct d2; cbn [folderAdd]; by rewrite Hz. }
    destruct (String.eqb_spec (parentFolder (forceTrailingSlash name)) "") as [Hp|Hp].
    { destruct d2; cbn [folderAdd]; rewrite Hz; [done|]. by rewrite Hp. }
    pose proof (parentFolder_length _ Hp) as Hlen.
    destruct (forceTrailingSlash_length name) as [Hends Hl]. rewrite Hends in Hlen.
    destruct d2 as [|d2]; [lia|].
    cbn [folderAdd]. rewrite Hz.
    destruct (String.eqb_spec (parentFolder (forceTrailingSlash name)) ""); [done|].
    f_equal. apply IH; lia.
Qed.

(** A name without a slash is stored as it is, with no folder. *)
Lemma JSZip_file_flat n data (zip : JSZip) :
  contains "/" n = false → JSZip_file n data zip = <[n := ZipFile data]> zip.
Proof. intros H. unfold JSZip_file. by rewrite (parentFolder_flat n H). Qed.

(** The folders of a nested name. *)
Example folders_of_nested_name :
  let zip := JSZip_file "docs/2024/a.txt" a_txt JSZip_new in
  size zip = 3
  ∧ zip !! "docs/" = Some ZipFolder
  ∧ zip !! "docs/2024/" = Some ZipFolder
  ∧ zip !! "docs/2024/a.txt" = Some (ZipFile a_txt).
Proof. vm_compute. done. Qed.

(** A leading slash and a doubled slash, as [parentFolder] treats them. *)
Example folders_of_odd_names :
  size (JSZip_file "/a.txt" a_txt JSZip_new) = 1
  ∧ dom (JSZip_file "a//b" a_txt JSZip_new) = {["a/"; "a//b"]}.
Proof. split; [vm_compute; done|]. apply (bool_decide_unpack _). vm_compute. exact I. Qed.

(** The levels that [zip.file] allows [folderAdd] are enough. *)
Lemma JSZip_file_depth n data (zip : JSZip) d :
  (String.length n ≤ d)%nat →
  JSZip_file n data zip
  = <[n := ZipFile data]>
      (if String.eqb (parentFolder n) "" then zip
       else folderAdd d (parentFolder n) zip).
Proof.
  intros Hd. unfold JSZip_file.
  destruct (String.eqb_spec (parentFolder n) "") as [|Hp]; [done|].
  pose proof (parentFolder_length n Hp) as Hlen.
  f_equal. apply folderAdd_depth; destruct (ends_with_slash n); lia.
Qed.

(** [folderAdd] adds entries and replaces none. *)
Lemma folderAdd_keeps (d : nat) : ∀ p (zip : JSZip) k v,
  zip !! k = Some v → folderAdd d p zip !! k = Some v.
Proof.
  induction d as [|d IH]; intros p zip k v Hk; cbn [folderAdd].
  - destruct (zip !! forceTrailingSlash p) eqn:Hz; [done|].
    rewrite lookup_insert_ne; [done|]. intros <-. congruence.
  - destruct (zip !! forceTrailingSlash p) eqn:Hz; [done|].
    rewrite lookup_insert_ne by (intros <-; congruence).
    destruct (String.eqb _ _); [done|]. by apply IH.
Qed.

Lemma JSZip_file_lookup n data (zip : JSZip) :
  JSZip_file n data zip !! n = Some (ZipFile data).
Proof. unfold JSZip_file. apply lookup_insert_eq. Qed.

Lemma JSZip_file_keeps n data (zip : JSZip) k v :
  k ≠ n → zip !! k = Some v → JSZip_file n data zip !! k = Some v.
Proof.
  intros Hne Hk. unfold JSZip_file. rewrite lookup_insert_ne by done.
  destruct (String.eqb _ _); [done|]. by apply folderAdd_keeps.
Qed.

(** *** The container *)

Lemma zip_fold_keeps (fs : list FileItem) : ∀ (zip : JSZip) k v,
  zip !! k = Some v → Forall (λ f, entry_name f ≠ k) fs →
  foldl (λ z f, JSZip_file (name (file f)) (file f) z) zip fs !! k = Some v.
Proof.
  induction fs as [|f fs IH]; intros zip k v Hk Hall; [done|].
  apply Forall_cons in Hall as [Hf Hall]. cbn [foldl].
  apply IH; [|done]. apply JSZip_file_keeps; [|done]. intros ->. by apply Hf.
Qed.

Lemma filter_nil_Forall {A} (P : A → Prop) `{∀ x, Decision (P x)} (l : list A) :
  filter P l = [] → Forall (λ x, ¬ P x) l.
Proof.
  induction l as [|x l IH]; intros Hl; [constructor|].
  destruct (decide (P x)) as [Hx|Hx].
  - by rewrite filter_cons_True in Hl.
  - rewrite filter_cons_False in Hl by done. constructor; [done|]. by apply IH.
Qed.

(** Whatever the names are, the entry under a staged name is the last
    staged file of that name. *)
Lemma zip_fold_last (fs : list FileItem) n f : ∀ zip : JSZip,
  last (filter (λ g, entry_name g = n) fs) = Some f →
  foldl (λ z g, JSZip_file (name (file g)) (file g) z) zip fs !! n
  = Some (ZipFile (file f)).
Proof.
  induction fs as [|g fs IH]; intros zip Hl; [done|].
  cbn [foldl]. destruct (decide (entry_name g = n)) as [Hn|Hn].
  - rewrite filter_cons_True in Hl by done.
    destruct (filter (λ g, entry_name g = n) fs) as [|h l] eqn:Hfs.
    + injection Hl as <-. apply zip_fold_keeps.
      * unfold entry_name in Hn. rewrite <- Hn. apply JSZip_file_lookup.
      * by apply (filter_nil_Forall (λ g, entry_name g = n)).
    + apply IH. exact Hl.
  - rewrite filter_cons_False in Hl by done. by apply IH.
Qed.

Lemma zip_of_last fs n f :
  last (filter (λ g, entry_name g = n) fs) = Some f →
  zip_of fs !! n = Some (ZipFile (file f)).
Proof. apply zip_fold_last. Qed.

Lemma zip_fold_lookup (fs : list FileItem) n : ∀ zip : JSZip,
  top_level_names fs →
  foldl (λ z f, JSZip_file (name (file f)) (file f) z) zip fs !! n
  = match last (filter (λ f, entry_name f = n) fs) with
    | Some f => Some (ZipFile (file f))
    | None => zip !! n
    end.
Proof.
  induction fs as [|f fs IH]; intros zip Hflat; [done|].
  apply Forall_cons in Hflat as [Hf Hflat].
  cbn [foldl]. rewrite IH by done. rewrite (JSZip_file_flat _ _ _ Hf).
  destruct (decide (entry_name f = n)) as [Hn|Hn].
  - rewrite filter_cons_True by done. rewrite last_cons.
    destruct (last _); [done|]. unfold entry_name in Hn. by rewrite <- Hn, lookup_insert_eq.
  - rewrite filter_cons_False by done.
    destruct (last _); [done|]. by rewrite lookup_insert_ne.
Qed.

(** An entry of the container is the last staged file of that name. *)
Lemma zip_of_lookup fs n :
  top_level_names fs →
  zip_of fs !! n = (ZipFile ∘ file) <$> last (filter (λ f, entry_name f = n) fs).
Proof.
  intros Hflat. unfold zip_of. rewrite zip_fold_lookup by done. by destruct (last _).
Qed.

Lemma zip_fold_dom (fs : list FileItem) : ∀ zip : JSZip,
  top_level_names fs →
  dom (foldl (λ z f, JSZip_file (name (file f)) (file f) z) zip fs)
  = dom zip ∪ list_to_set (entry_name <$> fs).
Proof.
  induction fs as [|f fs IH]; intros zip Hflat.
  - cbn. by rewrite (right_id_L ∅ (∪)).
  - apply Forall_cons in Hflat as [Hf Hflat].
    cbn [foldl]. rewrite IH by done. rewrite (JSZip_file_flat _ _ _ Hf), dom_insert_L.
    cbn [fmap list_fmap list_to_set]. unfold entry_name at 2.
    by rewrite (comm_L (∪) {[name (file f)]} (dom zip)), <- (assoc_L (∪)).
Qed.

Lemma zip_of_dom fs :
  top_level_names fs → dom (zip_of fs) = list_to_set (entry_name <$> fs).
Proof.
  intros Hflat. unfold zip_of. rewrite zip_fold_dom by done. unfold JSZip_new.
  by rewrite dom_empty_L, (left_id_L ∅ (∪)).
Qed.

Lemma size_list_to_set_remove_dups (l : list string) :
  size (list_to_set l : gset string) = length (remove_dups l).
Proof.
  rewrite <- (size_list_to_set (C := gset string)) by apply NoDup_remove_dups.
  f_equal. apply set_eq. intros x.
  by rewrite !elem_of_list_to_set, elem_of_remove_dups.
Qed.

(** The container has one entry per distinct name. *)
Lemma zip_of_size fs :
  top_level_names fs → size (zip_of fs) = length (remove_dups (entry_name <$> fs)).
Proof.
  intros Hflat. by rewrite <- size_list_to_set_remove_dups, <- zip_of_dom, size_dom.
Qed.

Lemma remove_dups_length_le (l : list string) : (length (remove_dups l) ≤ length l)%nat.
Proof.
  induction l as [|x l IH]; [done|]. cbn. case_decide; cbn; lia.
Qed.

Lemma remove_dups_length_lt (l : list string) :
  ¬ NoDup l → (length (remove_dups l) < length l)%nat.
Proof.
  induction l as [|x l IH]; intros Hnd.
  - destruct Hnd. constructor.
  - cbn. case_decide as Hx; cbn.
    + pose proof (remove_dups_length_le l). lia.
    + assert (¬ NoDup l) as H by (intros ?; apply Hnd; by constructor).
      specialize (IH H). lia.
Qed.

Lemma remove_dups_NoDup (l : list string) : NoDup l → remove_dups l = l.
Proof.
  induction 1 as [|x l Hx _ IH]; [done|]. cbn. case_decide; [done|]. by rewrite IH.
Qed.

Lemma generated_entries zip opts n :
  entries (JSZip_generate zip opts) !! n = unzipped <$> zip !! n.
Proof. unfold JSZip_generate. cbn. by rewrite lookup_fmap. Qed.

Lemma generated_extract zip opts n :
  extract (JSZip_generate zip opts) n
  = match zip !! n with
    | Some (ZipFile data) => Some (content data)
    | _ => None
    end.
Proof.
  unfold extract. rewrite generated_entries.
  by destruct (zip !! n) as [[]|].
Qed.

Lemma generated_size zip opts : size (entries (JSZip_generate zip opts)) = size zip.
Proof. unfold JSZip_generate. cbn. by rewrite map_size_fmap. Qed.

Lemma build_serialized o w :
  files (component w) ≠ [] →
  serialized (emitted (createZip o) w) = [(zip_of (files (component w)), zip_options)]
  ∧ containers (emitted (createZip o) w) = [tt].
Proof.
  intros Hne. destruct (build_cases o w) as [[H _]|[[_ H2]|[_ [e H2]]]]; [done| |].
  - rewrite (build_emitted_resolved o w Hne H2). split; by observe.
  - rewrite (build_emitted_rejected o w e Hne H2). split; by observe.
Qed.

Lemma build_downloads o w :
  files (component w) ≠ [] → generate_rejects o = None →
  downloads (emitted (createZip o) w)
  = [(JSZip_generate (zip_of (files (component w))) zip_options, zip_filename (now o))].
Proof.
  intros Hne Hgen. rewrite (build_emitted_resolved o w Hne Hgen). by observe.
Qed.

(** C10, as amended: when two or more staged files share a name, the
    entry that the container [createZip] builds and hands to the
    serializer has under a staged name is the last staged file of that
    name, because [zip.file] replaces an entry stored under the same
    name; and when no staged name has a [/] in it, the container has one
    entry per distinct name, fewer than there are staged files, and no
    other entry.  When the serialization resolves, the downloaded archive
    has these entries and unzipping one yields the bytes of that last
    file. *)
Theorem createZip_duplicate_names o w :
  ¬ NoDup (entry_name <$> files (component w)) →
  let fs := files (component w) in
  serialized (emitted (createZip o) w) = [(zip_of fs, zip_options)]
  ∧ (length (remove_dups (entry_name <$> fs)) < length fs)%nat
  ∧ (∀ n f, last (filter (λ g, entry_name g = n) fs) = Some f →
            zip_of fs !! n = Some (ZipFile (file f)))
  ∧ (top_level_names fs →
       size (zip_of fs) = length (remove_dups (entry_name <$> fs))
       ∧ ∀ n, zip_of fs !! n
              = (ZipFile ∘ file) <$> last (filter (λ f, entry_name f = n) fs))
  ∧ (generate_rejects o = None →
       ∃ blob,
         downloads (emitted (createZip o) w) = [(blob, zip_filename (now o))]
         ∧ (∀ n f, last (filter (λ g, entry_name g = n) fs) = Some f →
                   extract blob n = Some (content (file f)))
         ∧ (top_level_names fs →
              size (entries blob) = length (remove_dups (entry_name <$> fs))
              ∧ ∀ n, extract blob n
                     = (content ∘ file) <$> last (filter (λ f, entry_name f = n) fs))).
Proof.
  intros Hdup fs. subst fs.
  assert (files (component w) ≠ []) as Hne.
  { intros H. apply Hdup. rewrite H. constructor. }
  split; [by apply build_serialized|].
  split.
  { rewrite <- (length_fmap entry_name (files (component w))).
    by apply remove_dups_length_lt. }
  split; [intros n f; apply zip_of_last|].
  split. { intros Hflat. split; [by apply zip_of_size|]. intros n. by apply zip_of_lookup. }
  intros Hgen. eexists. split; [by apply build_downloads|]. split.
  { intros n f Hl. by rewrite generated_extract, (zip_of_last _ _ _ Hl). }
  intros Hflat. split; [by rewrite generated_size, zip_of_size|].
  intros n. rewrite generated_extract, zip_of_lookup by done. by destruct (last _).
Qed.

Lemma createZip_duplicate_names_witness :
  ¬ NoDup (entry_name <$> files (component same_name_twice))
  ∧ top_level_names (files (component same_name_twice))
  ∧ size (zip_of (files (component same_name_twice))) = 1
  ∧ zip_of (files (component same_name_twice)) !! "a.txt" = Some (ZipFile a_txt_again).
Proof.
  assert (top_level_names (files (component same_name_twice))) as Hflat.
  { repeat constructor. }
  assert (¬ NoDup (entry_name <$> files (component same_name_twice))) as Hdup.
  { intros H. apply (bool_decide_pack _) in H. vm_compute in H. exact H. }
  split; [exact Hdup|]. split; [exact Hflat|].
  destruct (createZip_duplicate_names (resolves_at 1700000000500) same_name_twice Hdup)
    as (_ & _ & H3 & H4 & _).
  destruct (H4 Hflat) as [H5 _].
  split; [rewrite H5; reflexivity|].
  apply (H3 "a.txt" (staged distinct_draws 1 a_txt_again)). reflexivity.
Defined.

(** C10, as stated, fails: with two staged files called [d/a.txt] the
    archive has the folder [d/] besides the file [d/a.txt], two entries
    for one distinct name, as many as there are staged files. *)
Lemma nested_names_add_folders :
  ¬ (∀ o w,
       ¬ NoDup (entry_name <$> files (component w)) →
       generate_rejects o = None →
       ∃ blob filename,
         downloads (emitted (createZip o) w) = [(blob, filename)]
         ∧ size (entries blob)
           = length (remove_dups (entry_name <$> files (component w)))
         ∧ (size (entries blob) < length (files (component w)))%nat).
Proof.
  intros H.
  destruct (H (resolves_at 1700000000500) nested_name_twice)
    as (blob & filename & Hd & Hsize & _); [|done|].
  { intros Hnd. apply (bool_decide_pack _) in Hnd. vm_compute in Hnd. exact Hnd. }
  rewrite build_downloads in Hd by done. injection Hd as <- _.
  rewrite generated_size in Hsize. vm_compute in Hsize. discriminate Hsize.
Qed.

(** ** Calendar facts *)
Module JSDateFacts.
Import JSDate.
Open Scope Z_scope.

Lemma YearFromTime_spec t :
  DayFromYear (YearFromTime t) <= Day t < DayFromYear (YearFromTime t + 1).
Proof.
  unfold YearFromTime. generalize (Day t). intros d.
  set (y0 := 1970 + 400 * d / 146097).
  assert (146097 * (y0 - 1970) <= 400 * d < 146097 * (y0 - 1970) + 146097) as H0.
  { unfold y0. pose proof (Z.div_mod (400 * d) 146097 ltac:(lia)).
    pose proof (Z.mod_pos_bound (400 * d) 146097 ltac:(lia)). lia. }
  clearbody y0.
  destruct (Z.ltb_spec d (DayFromYear y0)).
  - replace (y0 - 1 + 1) with y0 by lia. split; [|lia].
    unfold DayFromYear in *. Z.div_mod_to_equations. lia.
  - destruct (Z.leb_spec (DayFromYear (y0 + 1)) d).
    + split; [lia|]. unfold DayFromYear in *. Z.div_mod_to_equations. lia.
    + lia.
Qed.

Lemma DayFromYear_mono y1 y2 : y1 <= y2 → DayFromYear y1 <= DayFromYear y2.
Proof. intros H. unfold DayFromYear. Z.div_mod_to_equations. lia. Qed.

(** [YearFromTime t] is the largest year that starts at or before [t]. *)
Lemma YearFromTime_largest t y : TimeFromYear y <= t ↔ y <= YearFromTime t.
Proof.
  pose proof (YearFromTime_spec t) as [H1 H2].
  assert (TimeFromYear y <= t ↔ DayFromYear y <= Day t) as ->.
  { unfold TimeFromYear, Day, msPerDay. Z.div_mod_to_equations. lia. }
  split; intros H.
  - destruct (Z.le_gt_cases y (YearFromTime t)) as [|Hgt]; [done|].
    pose proof (DayFromYear_mono (YearFromTime t + 1) y ltac:(lia)). lia.
  - pose proof (DayFromYear_mono y (YearFromTime t) H). lia.
Qed.

Lemma DayFromYear_succ y : DayFromYear (y + 1) = DayFromYear y + DaysInYear y.
Proof.
  unfold DayFromYear, DaysInYear.
  repeat match goal with
         | |- context [?a =? ?b] => destruct (Z.eqb_spec a b)
         end; cbn [negb]; Z.div_mod_to_equations; lia.
Qed.

Lemma InLeapYear_cases t :
  (InLeapYear t = 0 ∧ DaysInYear (YearFromTime t) = 365)
  ∨ (InLeapYear t = 1 ∧ DaysInYear (YearFromTime t) = 366).
Proof.
  unfold InLeapYear. destruct (Z.eqb_spec (DaysInYear (YearFromTime t)) 366) as [H|H].
  - by right.
  - left. split; [done|]. revert H. unfold DaysInYear.
    repeat match goal with
           | |- context [?a =? ?b] => destruct (Z.eqb_spec a b)
           end; cbn [negb]; lia.
Qed.

Lemma DayWithinYear_range t : 0 <= DayWithinYear t < 365 + InLeapYear t.
Proof.
  unfold DayWithinYear. pose proof (YearFromTime_spec t) as H.
  rewrite DayFromYear_succ in H. destruct (InLeapYear_cases t) as [[-> ?]|[-> ?]]; lia.
Qed.

Lemma MonthFromTime_range t : 0 <= MonthFromTime t <= 11.
Proof.
  unfold MonthFromTime.
  repeat match goal with
         | |- context [?a <? ?b] => destruct (Z.ltb_spec a b)
         end; lia.
Qed.

Ltac split_cascade :=
  repeat match goal with
         | |- context [?a <? ?b] => destruct (Z.ltb_spec a b)
         end.

Lemma DateFromTime_eq t :
  DateFromTime t = DayWithinYear t - month_start (MonthFromTime t) (InLeapYear t) + 1.
Proof.
  unfold DateFromTime, MonthFromTime. split_cascade; cbn [month_start]; lia.
Qed.

Lemma DateFromTime_range t : 1 <= DateFromTime t <= 31.
Proof.
  rewrite DateFromTime_eq. pose proof (DayWithinYear_range t) as Hd.
  unfold MonthFromTime.
  destruct (InLeapYear_cases t) as [[Hl _]|[Hl _]]; rewrite Hl in *;
    split_cascade; cbn [month_start]; lia.
Qed.

Lemma HourFromTime_range t : 0 <= HourFromTime t <= 23.
Proof. unfold HourFromTime. pose proof (Z.mod_pos_bound (t / msPerHour) 24). lia. Qed.

Lemma MinFromTime_range t : 0 <= MinFromTime t <= 59.
Proof. unfold MinFromTime. pose proof (Z.mod_pos_bound (t / msPerMinute) 60). lia. Qed.

Lemma SecFromTime_range t : 0 <= SecFromTime t <= 59.
Proof. unfold SecFromTime. pose proof (Z.mod_pos_bound (t / msPerSecond) 60). lia. Qed.

(** The whole second of [t], from the day and the clock fields. *)
Lemma second_of_fields t :
  second_of t = Day t * 86400 + HourFromTime t * 3600 + MinFromTime t * 60 + SecFromTime t.
Proof.
  unfold second_of, Day, HourFromTime, MinFromTime, SecFromTime,
    msPerDay, msPerHour, msPerMinute, msPerSecond.
  Z.div_mod_to_equations. lia.
Qed.

(** The day of [t], from the calendar fields. *)
Lemma Day_of_fields t :
  Day t = DayFromYear (YearFromTime t)
          + month_start (MonthFromTime t) (InLeapYear t) + DateFromTime t - 1.
Proof. rewrite DateFromTime_eq. unfold DayWithinYear. lia. Qed.

(** The six fields determine the second. *)
Lemma second_of_determined t1 t2 :
  YearFromTime t1 = YearFromTime t2 → MonthFromTime t1 = MonthFromTime t2 →
  DateFromTime t1 = DateFromTime t2 → HourFromTime t1 = HourFromTime t2 →
  MinFromTime t1 = MinFromTime t2 → SecFromTime t1 = SecFromTime t2 →
  second_of t1 = second_of t2.
Proof.
  intros Hy Hm Hd Hh Hi Hs.
  rewrite !second_of_fields, !Day_of_fields.
  unfold InLeapYear. by rewrite Hy, Hm, Hd, Hh, Hi, Hs.
Qed.

(** The second determines the six fields. *)
Lemma fields_determined t1 t2 :
  second_of t1 = second_of t2 →
  YearFromTime t1 = YearFromTime t2 ∧ MonthFromTime t1 = MonthFromTime t2
  ∧ DateFromTime t1 = DateFromTime t2 ∧ HourFromTime t1 = HourFromTime t2
  ∧ MinFromTime t1 = MinFromTime t2 ∧ SecFromTime t1 = SecFromTime t2.
Proof.
  intros H.
  assert (Day t1 = Day t2) as Hday.
  { unfold second_of, Day, msPerDay in *. Z.div_mod_to_equations. lia. }
  assert (YearFromTime t1 = YearFromTime t2) as Hy by (unfold YearFromTime; by rewrite Hday).
  assert (MonthFromTime t1 = MonthFromTime t2) as Hm.
  { unfold MonthFromTime, DayWithinYear, InLeapYear. by rewrite Hday, Hy. }
  assert (DateFromTime t1 = DateFromTime t2) as Hd.
  { unfold DateFromTime. rewrite Hm. unfold DayWithinYear, InLeapYear. by rewrite Hday, Hy. }
  repeat split; try done.
  - unfold second_of, HourFromTime, msPerHour in *. Z.div_mod_to_equations. lia.
  - unfold second_of, MinFromTime, msPerMinute in *. Z.div_mod_to_equations. lia.
  - unfold second_of, SecFromTime, msPerSecond in *. by rewrite H.
Qed.
End JSDateFacts.

(** ** The timestamp in the file name *)

Example iso_epoch : JSDate.toISOString 0 = "1970-01-01T00:00:00.000Z".
Proof. vm_compute. reflexivity. Qed.

Example iso_2023 : JSDate.toISOString 1700000000500 = "2023-11-14T22:13:20.500Z".
Proof. vm_compute. reflexivity. Qed.

Example iso_before_epoch : JSDate.toISOString (-1) = "1969-12-31T23:59:59.999Z".
Proof. vm_compute. reflexivity. Qed.

Example iso_leap_day : JSDate.toISOString 951782400000 = "2000-02-29T00:00:00.000Z".
Proof. vm_compute. reflexivity. Qed.

Example iso_last_four_digit_year :
  JSDate.toISOString 253402300799999 = "9999-12-31T23:59:59.999Z".
Proof. vm_compute. reflexivity. Qed.

Example iso_expanded_year :
  JSDate.toISOString 253402300800000 = "+010000-01-01T00:00:00.000Z".
Proof. vm_compute. reflexivity. Qed.

Example iso_latest :
  JSDate.toISOString 8640000000000000 = "+275760-09-13T00:00:00.000Z".
Proof. vm_compute. reflexivity. Qed.

Example filename_2023 :
  zip_filename 1700000000500 = "file-fling-2023-11-14T22-13-20.zip".
Proof. vm_compute. reflexivity. Qed.

(** From the year 10000 on the ISO form has an expanded year, and its
    first 19 characters no longer reach the seconds. *)
Example filename_year_10000 :
  zip_filename 253402300800000 = "file-fling-+010000-01-01T00-00.zip"
  ∧ matches filename_pattern (zip_filename 253402300800000) = false.
Proof. split; vm_compute; reflexivity. Qed.

Ltac digit_cases k :=
  unfold JSDate.digit_char;
  let H := fresh "H" in
  let r := fresh "r" in
  pose proof (Z.mod_pos_bound k 10 ltac:(lia)) as H;
  generalize dependent (k mod 10)%Z; intros r H;
  assert (r = 0 ∨ r = 1 ∨ r = 2 ∨ r = 3 ∨ r = 4 ∨ r = 5 ∨ r = 6 ∨ r = 7
          ∨ r = 8 ∨ r = 9)%Z as [->|[->|[->|[->|[->|[->|[->|[->|[->| ->]]]]]]]]]
    by lia.

Lemma digit_char_is_digit k : is_digit (JSDate.digit_char k) = true.
Proof. digit_cases k; reflexivity. Qed.

Lemma digit_char_colon k : Ascii.eqb (JSDate.digit_char k) ":" = false.
Proof. digit_cases k; reflexivity. Qed.

Lemma digit_char_inj a b :
  JSDate.digit_char a = JSDate.digit_char b → (a mod 10 = b mod 10)%Z.
Proof. digit_cases a; digit_cases b; intros ?; done. Qed.

Lemma digits2_inj a b :
  (0 <= a < 100)%Z → (0 <= b < 100)%Z →
  JSDate.digits 2 a = JSDate.digits 2 b → a = b.
Proof.
  intros Ha Hb H. cbv [JSDate.digits String.append] in H. injection H as H1 H2.
  apply digit_char_inj in H1, H2. Z.div_mod_to_equations. lia.
Qed.

Lemma digits4_inj a b :
  (0 <= a < 10000)%Z → (0 <= b < 10000)%Z →
  JSDate.digits 4 a = JSDate.digits 4 b → a = b.
Proof.
  intros Ha Hb H. cbv [JSDate.digits String.append] in H. injection H as H1 H2 H3 H4.
  apply digit_char_inj in H1, H2, H3, H4. Z.div_mod_to_equations. lia.
Qed.

Lemma zip_filename_stamp t :
  (0 <= JSDate.YearFromTime t <= 9999)%Z →
  zip_filename t = "file-fling-" ++ utc_stamp t ++ ".zip".
Proof.
  intros Hy. unfold zip_filename, utc_stamp, JSDate.toISOString, JSDate.year_string.
  replace ((0 <=? JSDate.YearFromTime t)%Z && (JSDate.YearFromTime t <=? 9999)%Z)
    with true by (symmetry; apply andb_true_intro; split; lia).
  generalize (JSDate.YearFromTime t) (JSDate.MonthFromTime t + 1)%Z
    (JSDate.DateFromTime t) (JSDate.HourFromTime t) (JSDate.MinFromTime t)
    (JSDate.SecFromTime t) (JSDate.msFromTime t).
  intros y mo d h mi s ms. clear.
  unfold stamp, slice.
  cbv [JSDate.digits String.append substring Nat.sub replace_all].
  by rewrite !digit_char_colon.
Qed.

Lemma stamp_matches y mo d h mi s :
  matches filename_pattern ("file-fling-" ++ stamp y mo d h mi s ++ ".zip") = true.
Proof.
  unfold stamp, filename_pattern, lits.
  cbv [JSDate.digits String.append matches list_ascii_of_string fmap list_fmap
       replicate app].
  by rewrite !digit_char_is_digit.
Qed.

Lemma stamp_inj y mo d h mi s y' mo' d' h' mi' s' :
  (0 <= y < 10000 ∧ 0 <= y' < 10000)%Z → (0 <= mo < 100 ∧ 0 <= mo' < 100)%Z →
  (0 <= d < 100 ∧ 0 <= d' < 100)%Z → (0 <= h < 100 ∧ 0 <= h' < 100)%Z →
  (0 <= mi < 100 ∧ 0 <= mi' < 100)%Z → (0 <= s < 100 ∧ 0 <= s' < 100)%Z →
  stamp y mo d h mi s = stamp y' mo' d' h' mi' s' →
  y = y' ∧ mo = mo' ∧ d = d' ∧ h = h' ∧ mi = mi' ∧ s = s'.
Proof.
  intros [Ry Ry'] [Rmo Rmo'] [Rd Rd'] [Rh Rh'] [Rmi Rmi'] [Rs Rs'] Heq.
  unfold stamp in Heq. cbv [JSDate.digits String.append] in Heq.
  injection Heq as Y1 Y2 Y3 Y4 M1 M2 D1 D2 E1 E2 I1 I2 S1 S2.
  repeat split.
  - apply digits4_inj; [done..|]. cbv [JSDate.digits String.append]. congruence.
  - apply digits2_inj; [done..|]. cbv [JSDate.digits String.append]. congruence.
  - apply digits2_inj; [done..|]. cbv [JSDate.digits String.append]. congruence.
  - apply digits2_inj; [done..|]. cbv [JSDate.digits String.append]. congruence.
  - apply digits2_inj; [done..|]. cbv [JSDate.digits String.append]. congruence.
  - apply digits2_inj; [done..|]. cbv [JSDate.digits String.append]. congruence.
Qed.

(** Within the years 0000 to 9999 the file name determines the second. *)
Lemma zip_filename_second t1 t2 :
  (0 <= JSDate.YearFromTime t1 <= 9999)%Z → (0 <= JSDate.YearFromTime t2 <= 9999)%Z →
  (zip_filename t1 = zip_filename t2 ↔ second_of t1 = second_of t2).
Proof.
  intros Hy1 Hy2. rewrite !zip_filename_stamp by done. split.
  - intros H. apply (f_equal (λ s, substring 11 19 s)) in H.
    assert (∀ a, substring 11 19 ("file-fling-" ++ a ++ ".zip") = substring 0 19 (a ++ ".zip")) as Hs by done.
    rewrite !Hs in H. clear Hs.
    unfold utc_stamp, stamp in H.
    cbv [JSDate.digits String.append substring] in H.
    apply JSDateFacts.second_of_determined.
    all: pose proof (JSDateFacts.MonthFromTime_range t1);
      pose proof (JSDateFacts.MonthFromTime_range t2);
      pose proof (JSDateFacts.DateFromTime_range t1);
      pose proof (JSDateFacts.DateFromTime_range t2);
      pose proof (JSDateFacts.HourFromTime_range t1);
      pose proof (JSDateFacts.HourFromTime_range t2);
      pose proof (JSDateFacts.MinFromTime_range t1);
      pose proof (JSDateFacts.MinFromTime_range t2);
      pose proof (JSDateFacts.SecFromTime_range t1);
      pose proof (JSDateFacts.SecFromTime_range t2).
    all: destruct (stamp_inj (JSDate.YearFromTime t1) (JSDate.MonthFromTime t1 + 1)
             (JSDate.DateFromTime t1) (JSDate.HourFromTime t1) (JSDate.MinFromTime t1)
             (JSDate.SecFromTime t1)
             (JSDate.YearFromTime t2) (JSDate.MonthFromTime t2 + 1)
             (JSDate.DateFromTime t2) (JSDate.HourFromTime t2) (JSDate.MinFromTime t2)
             (JSDate.SecFromTime t2)) as (? & ? & ? & ? & ? & ?);
      try lia.
    all: unfold stamp; cbv [JSDate.digits String.append]; exact H.
  - intros H. unfold utc_stamp.
    by destruct (JSDateFacts.fields_determined t1 t2 H) as (-> & -> & -> & -> & -> & ->).
Qed.

(** C2, as amended: the download is called
    [file-fling-YYYY-MM-DDTHH-MM-SS.zip], the UTC date and time of the
    clock reading to the second, with hyphens where the ISO form has
    colons (clock within the years 0000 to 9999).  Two builds get the same
    name exactly when their clock readings fall in the same second. *)
Theorem createZip_filename_per_second o1 w1 o2 w2 :
  files (component w1) ≠ [] → files (component w2) ≠ [] →
  generate_rejects o1 = None → generate_rejects o2 = None →
  (0 <= JSDate.YearFromTime (now o1) <= 9999)%Z →
  (0 <= JSDate.YearFromTime (now o2) <= 9999)%Z →
  ∃ name1 name2,
    snd <$> downloads (emitted (createZip o1) w1) = [name1]
    ∧ snd <$> downloads (emitted (createZip o2) w2) = [name2]
    ∧ name1 = "file-fling-" ++ utc_stamp (now o1) ++ ".zip"
    ∧ name2 = "file-fling-" ++ utc_stamp (now o2) ++ ".zip"
    ∧ (name1 = name2 ↔ second_of (now o1) = second_of (now o2)).
Proof.
  intros Hne1 Hne2 Hg1 Hg2 Hy1 Hy2.
  exists (zip_filename (now o1)), (zip_filename (now o2)).
  rewrite (build_downloads o1 w1 Hne1 Hg1), (build_downloads o2 w2 Hne2 Hg2).
  split; [done|]. split; [done|].
  split; [by apply zip_filename_stamp|]. split; [by apply zip_filename_stamp|].
  by apply zip_filename_second.
Qed.

Lemma createZip_filename_per_second_witness :
  snd <$> downloads (emitted (createZip (resolves_at 1700000000500)) two_staged)
    = ["file-fling-2023-11-14T22-13-20.zip"]
  ∧ snd <$> downloads (emitted (createZip (resolves_at 1700000001500)) two_staged)
    = ["file-fling-2023-11-14T22-13-21.zip"].
Proof.
  assert (files (component two_staged) ≠ []) as Hne by done.
  assert (0 <= JSDate.YearFromTime 1700000000500 <= 9999)%Z as Hy1
    by (vm_compute; split; discriminate).
  assert (0 <= JSDate.YearFromTime 1700000001500 <= 9999)%Z as Hy2
    by (vm_compute; split; discriminate).
  destruct (createZip_filename_per_second (resolves_at 1700000000500) two_staged
              (resolves_at 1700000001500) two_staged Hne Hne eq_refl eq_refl Hy1 Hy2)
    as (n1 & n2 & H1 & H2 & -> & -> & _).
  split; [exact H1 | exact H2].
Defined.

(** C2, as stated, fails: two builds half a second apart, with different
    clock readings in the same second, download under the same name. *)
Lemma same_second_same_filename :
  ¬ (∀ o1 o2 w,
       files (component w) ≠ [] →
       generate_rejects o1 = None → generate_rejects o2 = None →
       now o1 ≠ now o2 →
       snd <$> downloads (emitted (createZip o1) w)
       ≠ snd <$> downloads (emitted (createZip o2) w)).
Proof.
  intros H.
  apply (H (resolves_at 1700000000000) (resolves_at 1700000000500) two_staged);
    [done..|].
  rewrite !build_downloads by done. reflexivity.
Qed.

Lemma filter_none {A} (P : A → Prop) `{∀ x, Decision (P x)} (l : list A) :
  Forall (λ x, ¬ P x) l → filter P l = [].
Proof.
  induction 1 as [|x l Hx _ IH]; [done|]. by rewrite filter_cons_False.
Qed.

(** C1, as amended: when the staged files have pairwise distinct names
    with no [/] in them, the serialization resolves and the clock is
    within the years 0000 to 9999, [createZip] makes one container, hands
    it once to the serializer, asking for a blob deflated at level 6, and
    triggers one download, of what the serializer gave.  The container
    holds every staged file under its name, and the archive has exactly
    one entry per staged file, each a file in the root of the archive: no
    folder entry and no [/] in an entry name; unzipping the entry yields
    the bytes of the file; and the download is called [file-fling-]
    followed by four digits, [-], two digits, [-], two digits, [T], two
    digits, [-], two digits, [-], two digits and [.zip]. *)
Theorem createZip_archive o w :
  files (component w) ≠ [] →
  top_level_names (files (component w)) →
  NoDup (entry_name <$> files (component w)) →
  generate_rejects o = None →
  (0 <= JSDate.YearFromTime (now o) <= 9999)%Z →
  ∃ blob filename,
    downloads (emitted (createZip o) w) = [(blob, filename)]
    ∧ containers (emitted (createZip o) w) = [tt]
    ∧ serialized (emitted (createZip o) w)
      = [(zip_of (files (component w)),
          {| opt_type := "blob"; opt_compression := "DEFLATE"; opt_level := 6 |})]
    ∧ blob = JSZip_generate (zip_of (files (component w))) zip_options
    ∧ blob_compression blob = "DEFLATE" ∧ blob_level blob = 6%Z
    ∧ size (entries blob) = length (files (component w))
    ∧ (∀ f, f ∈ files (component w) →
            zip_of (files (component w)) !! entry_name f = Some (ZipFile (file f))
            ∧ extract blob (entry_name f) = Some (content (file f)))
    ∧ (∀ n, is_Some (extract blob n) → n ∈ entry_name <$> files (component w))
    ∧ (∀ n e, entries blob !! n = Some e →
            contains "/" n = false
            ∧ ∃ f, f ∈ files (component w) ∧ n = entry_name f
                   ∧ e = FileBytes (content (file f)))
    ∧ matches filename_pattern filename = true.
Proof.
  intros Hne Hflat Hnd Hgen Hy.
  exists (JSZip_generate (zip_of (files (component w))) zip_options),
         (zip_filename (now o)).
  destruct (build_serialized o w Hne) as [Hs Hc].
  assert (∀ n z, zip_of (files (component w)) !! n = Some z →
            ∃ f, f ∈ files (component w) ∧ n = entry_name f ∧ z = ZipFile (file f))
    as Hentry.
  { intros n z Hn. rewrite zip_of_lookup in Hn by done.
    destruct (last _) as [f|] eqn:Hl; [|done]. injection Hn as <-.
    apply last_Some in Hl as [l' Hl].
    assert (f ∈ filter (λ g, entry_name g = n) (files (component w))) as Hin.
    { rewrite Hl. apply elem_of_app. right. left. }
    apply list_elem_of_filter in Hin as [<- Hin]. by exists f. }
  split; [by apply build_downloads|]. split; [done|]. split; [done|].
  split; [done|]. split; [done|]. split; [done|]. split.
  { rewrite generated_size, zip_of_size, remove_dups_NoDup by done.
    by rewrite length_fmap. }
  split.
  { intros f Hf.
    assert (zip_of (files (component w)) !! entry_name f = Some (ZipFile (file f)))
      as Hz.
    { rewrite zip_of_lookup by done.
      apply list_elem_of_split in Hf as (l1 & l2 & Hfs). rewrite Hfs in *.
      rewrite fmap_app, fmap_cons in Hnd.
      apply NoDup_app in Hnd as (_ & _ & Hnd). apply NoDup_cons in Hnd as [Hnotin _].
      rewrite filter_app, filter_cons_True by done.
      rewrite (filter_none (λ g, entry_name g = entry_name f) l2).
      - by rewrite last_snoc.
      - apply Forall_forall. intros g Hg Heq. apply Hnotin.
        rewrite <- Heq. by apply list_elem_of_fmap_2. }
    split; [exact Hz|]. by rewrite generated_extract, Hz. }
  split.
  { intros n [bytes Hn]. rewrite generated_extract in Hn.
    destruct (zip_of (files (component w)) !! n) as [z|] eqn:Hz; [|done].
    destruct (Hentry n z Hz) as (f & Hf & -> & _). by apply list_elem_of_fmap_2. }
  split.
  { intros n e Hn. rewrite generated_entries in Hn.
    destruct (zip_of (files (component w)) !! n) as [z|] eqn:Hz; [|done].
    injection Hn as <-.
    destruct (Hentry n z Hz) as (f & Hf & -> & ->).
    split; [|by exists f].
    unfold top_level_names in Hflat. rewrite Forall_forall in Hflat. by apply Hflat. }
  rewrite zip_filename_stamp by done. apply stamp_matches.
Qed.

Lemma createZip_archive_witness :
  ∃ blob filename,
    downloads (emitted (createZip (resolves_at 1700000000500)) two_staged)
      = [(blob, filename)]
    ∧ size (entries blob) = 2
    ∧ extract blob "a.txt" = Some (content a_txt)
    ∧ extract blob "b.png" = Some (content b_png)
    ∧ matches filename_pattern filename = true.
Proof.
  assert (files (component two_staged) ≠ []) as Hne by done.
  assert (top_level_names (files (component two_staged))) as Hflat
    by repeat constructor.
  assert (NoDup (entry_name <$> files (component two_staged))) as Hnd
    by (apply (bool_decide_unpack _); vm_compute; exact I).
  assert (0 <= JSDate.YearFromTime (now (resolves_at 1700000000500)) <= 9999)%Z as Hy
    by (vm_compute; split; discriminate).
  destruct (createZip_archive (resolves_at 1700000000500) two_staged
              Hne Hflat Hnd eq_refl Hy)
    as (blob & filename & H1 & _ & _ & _ & _ & _ & H2 & H3 & _ & _ & H4).
  exists blob, filename. split; [exact H1|]. split; [exact H2|].
  split; [|split; [|exact H4]].
  - apply (H3 (staged distinct_draws 0 a_txt)).
    change (files (component two_staged))
      with [staged distinct_draws 0 a_txt; staged distinct_draws 1 b_png]. left.
  - apply (H3 (staged distinct_draws 1 b_png)).
    change (files (component two_staged))
      with [staged distinct_draws 0 a_txt; staged distinct_draws 1 b_png].
    right. left.
Defined.

(** C1, as stated, fails: with two staged files called [a.txt] the
    archive has one entry, not two, and unzipping [a.txt] yields the bytes
    of the second file, not those of the first. *)
Lemma same_name_one_entry :
  ¬ (∀ o w,
       files (component w) ≠ [] → generate_rejects o = None →
       (0 <= JSDate.YearFromTime (now o) <= 9999)%Z →
       ∃ blob filename,
         downloads (emitted (createZip o) w) = [(blob, filename)]
         ∧ size (entries blob) = length (files (component w))
         ∧ (∀ f, f ∈ files (component w) →
                 extract blob (entry_name f) = Some (content (file f)))).
Proof.
  intros H.
  destruct (H (resolves_at 1700000000500) same_name_twice)
    as (blob & filename & Hd & Hsize & _); [done|done| |].
  { vm_compute; split; discriminate. }
  rewrite build_downloads in Hd by done. injection Hd as <- _.
  rewrite generated_size in Hsize. vm_compute in Hsize.
  discriminate Hsize.
Qed.

(** Nor does C1 hold of a name with a folder in it: one staged file called
    [d/a.txt] gives an archive of two entries, the folder [d/] and the
    file below it. *)
Example nested_name_not_top_level :
  let w := run [Drop distinct_draws [d_a_txt]] initial in
  let blob := JSZip_generate (zip_of (files (component w))) zip_options in
  downloads (emitted (createZip (resolves_at 1700000000500)) w)
    = [(blob, "file-fling-2023-11-14T22-13-20.zip")]
  ∧ size (entries blob) = 2
  ∧ entries blob !! "d/" = Some Directory
  ∧ extract blob "d/a.txt" = Some (content d_a_txt).
Proof.
  split; [by rewrite build_downloads|]. vm_compute. done.
Qed.

(** * More of the component *)

(** ** Total size *)

Lemma totalSize_fold (l : list FileItem) : ∀ z : Z,
  foldl (λ sum f, (sum + file_size (file f))%Z) z l
  = (z + foldl (λ sum f, (sum + file_size (file f))%Z) 0%Z l)%Z.
Proof.
  induction l as [|f l IH]; intros z; cbn [foldl]; [lia|].
  rewrite IH, (IH (0 + _)%Z). lia.
Qed.

Lemma totalSize_app c (l1 l2 : list FileItem) :
  totalSize (with_files (l1 ++ l2) c)
  = (totalSize (with_files l1 c) + totalSize (with_files l2 c))%Z.
Proof.
  unfold totalSize. cbn [files with_files]. by rewrite foldl_app, totalSize_fold.
Qed.

Lemma totalSize_ext c c' : files c = files c' → totalSize c = totalSize c'.
Proof. unfold totalSize. by intros ->. Qed.

Lemma totalSize_staged o c (l : list File) :
  totalSize (with_files (imap (staged o) l) c)
  = foldl (λ sum f, (sum + file_size f)%Z) 0%Z l.
Proof.
  unfold totalSize. cbn [files with_files].
  rewrite <- (staged_files o l) at 2. generalize (imap (staged o) l). intros items.
  generalize 0%Z. induction items as [|x items IH]; intros z; [done|].
  cbn. apply IH.
Qed.

(** X1: adding files raises the total size by the sizes of the files
    added, whatever ids and previews they get; so does a drop, and a file
    input with a selection. *)
Theorem totalSize_addFiles o newFiles w :
  let added := foldl (λ sum f, (sum + file_size f)%Z) 0%Z newFiles in
  totalSize (component (snd (addFiles o newFiles w)))
    = (totalSize (component w) + added)%Z
  ∧ totalSize (component (step w (Drop o newFiles)))
    = (totalSize (component w) + added)%Z
  ∧ totalSize (component (step w (FileInput o (Some newFiles))))
    = (totalSize (component w) + added)%Z
  ∧ (0 <= added)%Z.
Proof.
  intros added.
  assert (totalSize (component (snd (addFiles o newFiles w)))
          = (totalSize (component w) + added)%Z) as Hadd.
  { rewrite addFiles_run. cbn [snd component].
    rewrite (totalSize_app (component w)), totalSize_staged. done. }
  split; [exact Hadd|]. split; [|split; [exact Hadd|]].
  - unfold step. cbn [handler]. rewrite handleDrop_run, addFiles_run.
    cbn [snd component files with_files].
    rewrite (totalSize_ext _ (with_files (files (component w) ++ imap (staged o) newFiles)
                                 (component w))) by done.
    by rewrite (totalSize_app (component w)), totalSize_staged.
  - unfold added. clear. generalize newFiles. intros l.
    assert (∀ z, (0 <= z)%Z → (0 <= foldl (λ sum f, (sum + file_size f)%Z) z l)%Z) as H.
    { induction l as [|f l IH]; intros z Hz; [done|]. cbn. apply IH.
      unfold file_size. lia. }
    by apply H.
Qed.

Lemma totalSize_nonneg c : (0 <= totalSize c)%Z.
Proof.
  unfold totalSize. generalize (files c). intros l.
  assert (∀ z, (0 <= z)%Z
            → (0 <= foldl (λ sum f, (sum + file_size (file f))%Z) z l)%Z) as H.
  { induction l as [|f l IH]; intros z Hz; [done|]. cbn. apply IH.
    unfold file_size. lia. }
  by apply H.
Qed.

Lemma totalSize_cons c f (l : list FileItem) :
  totalSize (with_files (f :: l) c)
  = (file_size (file f) + totalSize (with_files l c))%Z.
Proof.
  unfold totalSize. cbn [files with_files foldl]. rewrite totalSize_fold. lia.
Qed.

Lemma totalSize_partition c i (l : list FileItem) :
  totalSize (with_files l c)
  = (totalSize (with_files (filter (λ f, id f ≠ i) l) c)
     + totalSize (with_files (filter (λ f, id f = i) l) c))%Z.
Proof.
  induction l as [|f l IH]; [done|].
  rewrite totalSize_cons, IH.
  destruct (decide (id f = i)) as [Hi|Hi].
  - rewrite (filter_cons_True (λ f, id f = i)), (filter_cons_False (λ f, id f ≠ i))
      by (done || by intros ?).
    rewrite totalSize_cons. lia.
  - rewrite (filter_cons_False (λ f, id f = i)), (filter_cons_True (λ f, id f ≠ i))
      by done.
    rewrite totalSize_cons. lia.
Qed.

(** X2: removing by id lowers the total size by the sizes of the entries
    that carried the id, all of them, and by nothing when none does; the
    total never grows; clearing brings it to 0. *)
Theorem totalSize_removeFile i w :
  totalSize (component w)
    = (totalSize (component (snd (removeFile i w)))
       + totalSize (with_files (filter (λ f, id f = i) (files (component w)))
                      (component w)))%Z
  ∧ (totalSize (component (snd (removeFile i w))) <= totalSize (component w))%Z
  ∧ (i ∉ id <$> files (component w) →
       totalSize (component (snd (removeFile i w))) = totalSize (component w))
  ∧ totalSize (component (snd (clearAllFiles w))) = 0%Z.
Proof.
  rewrite removeFile_run, clearAllFiles_run. cbn [snd component].
  pose proof (totalSize_partition (component w) i (files (component w))) as Hp.
  rewrite (totalSize_ext (with_files (files (component w)) (component w)) (component w))
    in Hp by done.
  split; [exact Hp|]. split; [|split; [|done]].
  - pose proof (totalSize_nonneg
      (with_files (filter (λ f, id f = i) (files (component w))) (component w))). lia.
  - intros Hout. rewrite filter_all; [done|].
    apply Forall_forall. intros g Hg Heq. apply Hout.
    rewrite <- Heq. by apply list_elem_of_fmap_2.
Qed.

Lemma totalSize_removeFile_witness :
  ("k3x9a7" ∉ id <$> files (component two_staged))
  ∧ totalSize (component (snd (removeFile "k3x9a7" two_staged)))
    = totalSize (component two_staged).
Proof.
  assert ("k3x9a7" ∉ id <$> files (component two_staged)) as Hout.
  { intros H. apply (bool_decide_pack _) in H. vm_compute in H. exact H. }
  destruct (totalSize_removeFile "k3x9a7" two_staged) as (_ & _ & H3 & _).
  exact (conj Hout (H3 Hout)).
Defined.

(** ** Empty selections, drops and the drag highlight *)

(** X3: an empty selection or an empty drop stages nothing, draws no id
    and mints no URL, but still writes the collection back and shows the
    toast [Added 0 file(s)]; a file input whose [files] is [null] does
    nothing at all. *)
Theorem addFiles_nothing o w :
  files_after (addFiles o []) w = files (component w)
  ∧ emitted (addFiles o []) w
    = [SetFiles (files (component w)); ToastSuccess "Added 0 file(s)"]
  ∧ emitted (handleDrop o []) w
    = [PreventDefault; SetIsDragging false; SetFiles (files (component w));
       ToastSuccess "Added 0 file(s)"]
  ∧ handleFileInput o None w = (Returned tt, w).
Proof.
  unfold files_after.
  erewrite (emitted_app (addFiles o []) w); [|rewrite addFiles_run; reflexivity].
  erewrite (emitted_app (handleDrop o []) w);
    [|rewrite handleDrop_run, addFiles_run; cbn [snd trace component files with_files];
      rewrite <- app_assoc; reflexivity].
  rewrite addFiles_run. cbn. rewrite ?app_nil_r. repeat split; reflexivity.
Qed.

Lemma step_isDragging w a :
  isDragging (component (step w a))
  = match a with
    | DragOver => true
    | DragLeave | Drop _ _ => false
    | _ => isDragging (component w)
    end.
Proof.
  unfold step. destruct a as [| |o fs|o [fs|]|i| |o]; cbn [handler].
  - unfold handleDragOver. by rewrite handleDrag_run.
  - unfold handleDragLeave. by rewrite handleDrag_run.
  - by rewrite handleDrop_run, addFiles_run.
  - cbn [handleFileInput]. by rewrite addFiles_run.
  - done.
  - by rewrite removeFile_run.
  - by rewrite clearAllFiles_run.
  - destruct (decide (files (component w) = [])) as [H|H].
    + by rewrite (createZip_empty o w H).
    + by rewrite (createZip_resets o w H).
Qed.

(** X5: after any session the drop zone is highlighted exactly when the
    last drag event of the session was a drag-over; file inputs,
    removals, clearing and builds leave the highlight as it is. *)
Theorem isDragging_last_drag acts w :
  isDragging (component (run acts w))
  = match last (filter (λ a, is_drag_action a = true) acts) with
    | Some DragOver => true
    | Some _ => false
    | None => isDragging (component w)
    end.
Proof.
  induction acts as [|a acts IH] using rev_ind; [done|].
  rewrite run_snoc, step_isDragging, filter_app.
  destruct a; cbn [is_drag_action];
    rewrite ?filter_cons_True, ?filter_cons_False, ?filter_nil, ?app_nil_r,
            ?last_snoc by done; try done.
Qed.

(** ** Removing and clearing, whatever the ids *)

Lemma find_preview_owner i (fs : list FileItem) u :
  List.find (λ f, String.eqb (id f) i) fs ≫= preview = Some u →
  ∃ f, f ∈ fs ∧ id f = i ∧ preview f = Some u.
Proof.
  destruct (List.find _ fs) as [f|] eqn:Hfind; [|done]. cbn. intros Hp.
  apply find_some in Hfind as [Hin Heq].
  exists f. split; [by apply list_elem_of_In|]. split; [|done].
  by apply String.eqb_eq.
Qed.

(** X6: whatever the ids in the collection, [removeFile i] keeps exactly
    the entries with another id, in their order, so the length drops by
    the number of entries that carried [i]; it revokes at most one
    handle, and a handle it revokes was the preview of an entry it
    removed. *)
Theorem removeFile_general i w :
  files_after (removeFile i) w `sublist_of` files (component w)
  ∧ (∀ f, f ∈ files_after (removeFile i) w ↔ f ∈ files (component w) ∧ id f ≠ i)
  ∧ length (files (component w))
    = length (files_after (removeFile i) w)
      + length (filter (λ f, id f = i) (files (component w)))
  ∧ (length (revoked (emitted (removeFile i) w)) ≤ 1)%nat
  ∧ (∀ u, u ∈ revoked (emitted (removeFile i) w) →
          ∃ f, f ∈ files (component w) ∧ id f = i ∧ preview f = Some u
               ∧ f ∉ files_after (removeFile i) w).
Proof.
  unfold files_after.
  erewrite (emitted_app (removeFile i) w); [|rewrite removeFile_run; reflexivity].
  rewrite removeFile_run. cbn [snd component with_files files].
  split; [apply sublist_filter|].
  split; [intros f; rewrite list_elem_of_filter; tauto|].
  split.
  { generalize (files (component w)). intros l.
    induction l as [|f l IH]; [done|].
    destruct (decide (id f = i)) as [Hi|Hi].
    - rewrite (filter_cons_True (λ f, id f = i)), (filter_cons_False (λ f, id f ≠ i))
        by (done || by intros ?). cbn. lia.
    - rewrite (filter_cons_False (λ f, id f = i)), (filter_cons_True (λ f, id f ≠ i))
        by done. cbn. lia. }
  observe. rewrite app_nil_r.
  split; [destruct (_ ≫= preview); cbn; lia|].
  intros u Hu.
  destruct (List.find _ _ ≫= preview) as [u'|] eqn:Hfind; cbn in Hu; [|by inversion Hu].
  apply list_elem_of_singleton in Hu as ->.
  destruct (find_preview_owner i _ u' Hfind) as (f & Hin & Hid & Hp).
  exists f. repeat split; try done.
  rewrite list_elem_of_filter. intros [Hne _]. by apply Hne.
Qed.

Lemma removeFile_general_witness :
  BlobURL "3f0c-1" ∈ revoked (emitted (removeFile "k3x9a1") two_staged)
  ∧ ∃ f, f ∈ files (component two_staged) ∧ id f = "k3x9a1"
         ∧ preview f = Some (BlobURL "3f0c-1")
         ∧ f ∉ files_after (removeFile "k3x9a1") two_staged.
Proof.
  assert (BlobURL "3f0c-1" ∈ revoked (emitted (removeFile "k3x9a1") two_staged)) as Hin
    by (apply (bool_decide_unpack _); vm_compute; exact I).
  destruct (removeFile_general "k3x9a1" two_staged) as (_ & _ & _ & _ & H).
  exact (conj Hin (H _ Hin)).
Defined.

(** X7: removing the same id a second time is a no-op: the id is gone
    after the first removal, whatever the ids were, so the second call
    leaves the collection as it is and revokes nothing. *)
Theorem removeFile_twice i w :
  (i ∉ id <$> files_after (removeFile i) w)
  ∧ files_after (removeFile i) (snd (removeFile i w)) = files_after (removeFile i) w
  ∧ revoked (emitted (removeFile i) (snd (removeFile i w))) = [].
Proof.
  unfold files_after.
  erewrite (emitted_app (removeFile i) (snd (removeFile i w)));
    [|rewrite (removeFile_run i (snd _)); reflexivity].
  rewrite (removeFile_run i (snd _)), removeFile_run.
  cbn [snd component with_files files].
  assert (Forall (λ g, id g ≠ i) (filter (λ f, id f ≠ i) (files (component w)))) as Hall.
  { apply Forall_forall. intros g Hg. by apply list_elem_of_filter in Hg as [? _]. }
  split.
  { intros Hin. apply list_elem_of_fmap in Hin as (g & Hg & Hin).
    rewrite Forall_forall in Hall. by apply (Hall g Hin). }
  split; [by apply filter_all|].
  rewrite (find_absent _ _ Hall). by observe.
Qed.

(** X8: the [clearAllFiles] closure of a render works on the entries
    captured at that render, whatever the state is when it runs: it
    revokes their handles in the order of the list, empties the
    collection and shows the toast; run a second time before the next
    render, it revokes every captured handle again. *)
Theorem clearAllFiles_stale_closure captured w :
  emitted (clearAllFiles_of captured) w
    = ((RevokeObjectURL <$> live captured)
       ++ [SetFiles []; ToastSuccess "All files cleared"])%list
  ∧ files_after (clearAllFiles_of captured) w = []
  ∧ revoked (emitted (clearAllFiles_of captured ;;; clearAllFiles_of captured) w)
    = (live captured ++ live captured)%list.
Proof.
  unfold files_after.
  erewrite (emitted_app (clearAllFiles_of captured) w);
    [|rewrite clearAllFiles_of_run; reflexivity].
  erewrite (emitted_app (clearAllFiles_of captured ;;; clearAllFiles_of captured) w).
  2: { unfold bind. rewrite clearAllFiles_of_run, clearAllFiles_of_run.
       cbn [trace]. rewrite <- app_assoc. reflexivity. }
  rewrite clearAllFiles_of_run. split; [done|]. split; [done|].
  unfold revoked. rewrite !omap_app.
  rewrite (omap_fmap_Some _ RevokeObjectURL) by done.
  cbn [omap list_omap]. by rewrite !app_nil_r.
Qed.

(** ** Sessions, whatever the ids *)

Lemma thumbnails_live c : thumbnails c = live (files c).
Proof.
  unfold thumbnails, live. apply list_omap_ext. induction (files c) as [|f l IH].
  - constructor.
  - constructor; [|exact IH].
    destruct (preview f) as [u|]; [by rewrite truthy_Some|done].
Qed.

Lemma live_sublist (l1 l2 : list FileItem) :
  l1 `sublist_of` l2 → live l1 `sublist_of` live l2.
Proof.
  induction 1 as [|f l1 l2 _ IH|f l1 l2 _ IH]; unfold live in *; cbn.
  - constructor.
  - destruct (preview f); [by constructor|done].
  - destruct (preview f); [by constructor|done].
Qed.

(** What [removeFile] takes out of the staged handles covers what it
    revokes. *)
Lemma live_remove_sub i (fs : list FileItem) :
  (live (filter (λ f, id f ≠ i) fs)
   ++ option_list (List.find (λ f, String.eqb (id f) i) fs ≫= preview))%list
  ⊆+ live fs.
Proof.
  induction fs as [|f fs IH]; [done|].
  destruct (decide (id f = i)) as [Hi|Hi].
  - rewrite filter_cons_False by (by intros ?). cbn [List.find].
    rewrite (proj2 (String.eqb_eq _ _) Hi). cbn [mbind option_bind].
    replace (live (f :: fs)) with (option_list (preview f) ++ live fs)%list
      by (unfold live; cbn; by destruct (preview f)).
    rewrite (comm (++)). apply submseteq_app; [done|].
    apply sublist_submseteq, live_sublist, sublist_filter.
  - rewrite filter_cons_True by done. cbn [List.find].
    rewrite (proj2 (String.eqb_neq _ _) Hi).
    unfold live in *. cbn [omap list_omap].
    destruct (preview f); [|exact IH]. cbn. by apply submseteq_skip.
Qed.

Lemma step_accounted w a : accounted w → accounted (step w a).
Proof.
  intros Hacc. destruct (step_effect w a) as (l & Hl & He).
  unfold accounted in *. rewrite Hl.
  change (files (component (step w a))) with (files_after (handler a) w).
  unfold created, revoked in *. rewrite !omap_app.
  destruct He as [items H1 H2 H3 H4|i H1 H2 H3 H4|H1 H2 H3 H4];
    unfold created, revoked in *; rewrite H1, H3, H4.
  - rewrite live_app, app_nil_r.
    rewrite <- (assoc (++)), (comm (++) (live items)), (assoc (++)).
    by apply submseteq_app.
  - rewrite app_nil_r. etrans; [|exact Hacc].
    rewrite (assoc (++)), (comm (++) _ (option_list _)), (assoc (++)).
    apply submseteq_app; [|done].
    rewrite (comm (++)). apply live_remove_sub.
  - rewrite app_nil_r. cbn [live omap list_omap app].
    by rewrite (comm (++)).
Qed.

Lemma run_accounted acts : accounted (run acts initial).
Proof.
  induction acts as [|a acts IH] using rev_ind.
  - unfold accounted. by cbn.
  - rewrite run_snoc. by apply step_accounted.
Qed.

Lemma run_ids_drawn acts : ids_drawn (run acts initial).
Proof.
  induction acts as [|a acts IH] using rev_ind.
  - unfold ids_drawn. cbn. constructor.
  - rewrite run_snoc. destruct (step_effect (run acts initial) a) as (l & Hl & He).
    unfold ids_drawn in *. rewrite Hl.
    change (files (component (step (run acts initial) a)))
      with (files_after (handler a) (run acts initial)).
    unfold drawn in *. rewrite omap_app.
    destruct He as [items H1 H2 H3 H4|i H1 H2 H3 H4|H1 H2 H3 H4];
      unfold drawn in *; rewrite H1, H2.
    + rewrite fmap_app. by apply sublist_app.
    + rewrite app_nil_r. etrans; [|exact IH]. apply fmap_sublist, sublist_filter.
    + apply sublist_nil_l.
Qed.

(** X9: in every session, colliding ids or not, the handles held by staged
    entries and the handles revoked are, counted with repetition, among
    the handles minted.  So when the platform never mints a URL twice, no
    handle is revoked twice, and every thumbnail on the page shows a URL
    that was minted and has not been revoked. *)
Theorem no_revoked_thumbnail acts :
  let w := run acts initial in
  (live (files (component w)) ++ revoked (trace w))%list ⊆+ created (trace w)
  ∧ (NoDup (created (trace w)) →
       NoDup (revoked (trace w))
       ∧ NoDup (thumbnails (component w))
       ∧ ∀ u, u ∈ thumbnails (component w) →
              u ∈ created (trace w) ∧ u ∉ revoked (trace w)).
Proof.
  intros w. pose proof (run_accounted acts) as Hacc. fold w in Hacc.
  unfold accounted in Hacc. split; [exact Hacc|]. intros Hnd.
  destruct (submseteq_Permutation _ _ Hacc) as [k Hk].
  rewrite Hk in Hnd. apply NoDup_app in Hnd as (Hnd & _ & _).
  apply NoDup_app in Hnd as (Hlive & Hdisj & Hrev).
  rewrite thumbnails_live. split; [exact Hrev|]. split; [exact Hlive|].
  intros u Hu. split; [|by apply Hdisj].
  rewrite Hk. apply elem_of_app. left. apply elem_of_app. by left.
Qed.

Lemma no_revoked_thumbnail_witness :
  NoDup (created (trace (run colliding_session initial)))
  ∧ NoDup (revoked (trace (run colliding_session initial)))
  ∧ NoDup (thumbnails (component (run colliding_session initial))).
Proof.
  assert (NoDup (created (trace (run colliding_session initial)))) as Hnd
    by (apply (bool_decide_unpack _); vm_compute; exact I).
  destruct (no_revoked_thumbnail colliding_session) as (_ & H).
  destruct (H Hnd) as (H1 & H2 & _).
  exact (conj Hnd (conj H1 H2)).
Defined.

(** X10: in every session the ids of the staged entries are draws of the
    random source, each draw used by at most one entry and in the order
    drawn; so as long as the draws of a session do not collide, the ids
    in the collection are pairwise distinct. *)
Theorem ids_distinct_without_collisions acts :
  (id <$> files (component (run acts initial)))
    `sublist_of` drawn (trace (run acts initial))
  ∧ (NoDup (drawn (trace (run acts initial))) →
       NoDup (id <$> files (component (run acts initial)))).
Proof.
  pose proof (run_ids_drawn acts) as H. unfold ids_drawn in H.
  split; [exact H|]. intros Hnd. by eapply sublist_NoDup.
Qed.

Lemma ids_distinct_without_collisions_witness :
  NoDup (drawn (trace (run sample_session initial)))
  ∧ NoDup (id <$> files (component (run sample_session initial))).
Proof.
  assert (NoDup (drawn (trace (run sample_session initial)))) as Hnd
    by (apply (bool_decide_unpack _); vm_compute; exact I).
  destruct (ids_distinct_without_collisions sample_session) as (_ & H).
  exact (conj Hnd (H Hnd)).
Defined.

(** ** Builds *)

(** X11: every call of [createZip] shows exactly one toast: the success
    toast when it downloaded an archive (once), an error toast when it
    downloaded nothing. *)
Theorem createZip_one_toast o w :
  (toasts (emitted (createZip o) w)
     = [(false, "ZIP file created and downloaded successfully!")]
   ∧ length (downloads (emitted (createZip o) w)) = 1)
  ∨ (∃ msg, toasts (emitted (createZip o) w) = [(true, msg)]
            ∧ downloads (emitted (createZip o) w) = []).
Proof.
  destruct (build_cases o w) as [[H _]|[[H1 H2]|[H1 [e H2]]]].
  - right. eexists. by rewrite (build_emitted_empty o w H).
  - left. rewrite (build_emitted_resolved o w H1 H2). split; by observe.
  - right. eexists. rewrite (build_emitted_rejected o w e H1 H2). split; by observe.
Qed.

(** The synchronous part of a build of a non-empty collection. *)
Lemma createZip_begin_run w :
  files (component w) ≠ [] →
  createZip_begin w =
    (Returned (Some (zip_of (files (component w)))),
     {| component := with_builder true 75 (component w);
        trace := (trace w
          ++ [SetIsCreatingZip true; SetZipProgress 0; NewJSZip]
          ++ (SetZipProgress <$> (checkpoint (length (files (component w)))
                                    <$> seq 0 (length (files (component w)))))
          ++ [SetZipProgress 75;
              GenerateAsync (zip_of (files (component w))) zip_options])%list |}).
Proof.
  intros Hne. destruct w as [c tr]. cbn [component trace] in *.
  unfold createZip_begin, bind at 1, read. cbn [component].
  destruct (Nat.eqb_spec (length (files c)) 0) as [H0|_];
    [by apply nil_length_inv in H0|].
  unfold bind at 1, setIsCreatingZip, bind at 1, update, emit.
  cbn [component trace].
  unfold bind at 1, setZipProgress at 1, bind at 1, update, emit.
  cbn [component trace files isDragging isCreatingZip zipProgress].
  unfold bind at 1, new_JSZip, bind at 1, emit, ret. cbn [component trace].
  unfold bind at 1.
  change {| files := files c; isDragging := isDragging c;
            isCreatingZip := true; zipProgress := 0 |}
    with (with_builder true 0 c).
  rewrite for_loop_add_to_zip by lia. rewrite zip_of_loop.
  cbn -[checkpoint seq zip_of zip_options].
  f_equal. f_equal. by rewrite <- !app_assoc.
Qed.

Lemma createZip_begin_empty w :
  files (component w) = [] →
  createZip_begin w =
    (Returned None,
     {| component := component w;
        trace := (trace w ++ [ToastError "Please add some files first"])%list |}).
Proof.
  intros H. destruct w as [c tr]. cbn [component trace] in *.
  unfold createZip_begin, bind at 1, read. cbn [component]. by rewrite H.
Qed.

(** The continuation of a build, from any state of the component. *)
Lemma createZip_resume_run o zip w :
  createZip_resume o zip w =
    (Returned tt,
     {| component := with_builder false 0 (component w);
        trace := (trace w ++
          match generate_rejects o with
          | None =>
              [SetZipProgress 100; NewDate (now o);
               SaveAs (JSZip_generate zip zip_options) (zip_filename (now o));
               ToastSuccess "ZIP file created and downloaded successfully!";
               SetIsCreatingZip false; SetZipProgress 0]
          | Some e =>
              [ConsoleError "Error creating ZIP:" e;
               ToastError "Failed to create ZIP file";
               SetIsCreatingZip false; SetZipProgress 0]
          end)%list |}).
Proof.
  destruct w as [c tr]. unfold createZip_resume, try_catch_finally.
  destruct (generate_rejects o) as [e|];
    cbn -[zip_options JSZip_generate]; f_equal; f_equal; by rewrite <- !app_assoc.
Qed.

(** X12: [createZip] is its synchronous part followed, when the guard
    let it through, by its continuation; the synchronous part never
    throws, and it yields the container of the files staged at the
    click. *)
Theorem createZip_begin_resume o w :
  createZip o w
    = (r <- createZip_begin ;;
       match r with
       | Some zip => createZip_resume o zip
       | None => ret tt
       end) w
  ∧ fst (createZip_begin w)
    = Returned (if decide (files (component w) = [])
                then None else Some (zip_of (files (component w)))).
Proof.
  unfold bind. destruct (decide (files (component w) = [])) as [H|H].
  - by rewrite (createZip_begin_empty w H), (createZip_empty o w H).
  - rewrite (createZip_begin_run w H), createZip_resume_run.
    cbn [fst snd component trace]. split; [|done].
    destruct (generate_rejects o) as [e|] eqn:He.
    + rewrite (createZip_rejected o w e H He). f_equal. f_equal.
      by rewrite <- !app_assoc.
    + rewrite (createZip_resolved o w H He). f_equal. f_equal.
      by rewrite <- !app_assoc.
Qed.

(** X13: the archive is the one of the files staged when [Create ZIP] was
    clicked.  Whatever the handlers do to the collection while the
    promise is pending, the continuation downloads the container filled
    at the click, leaves the collection as the handlers left it, and
    puts the builder back to idle at 0. *)
Theorem createZip_zips_snapshot o w acts :
  files (component w) ≠ [] →
  let zip := zip_of (files (component w)) in
  let pending := run acts (snd (createZip_begin w)) in
  fst (createZip_begin w) = Returned (Some zip)
  ∧ (generate_rejects o = None →
       downloads (emitted (createZip_resume o zip) pending)
       = [(JSZip_generate zip zip_options, zip_filename (now o))])
  ∧ (∀ e, generate_rejects o = Some e →
       downloads (emitted (createZip_resume o zip) pending) = [])
  ∧ files_after (createZip_resume o zip) pending = files (component pending)
  ∧ component (snd (createZip_resume o zip pending))
    = with_builder false 0 (component pending).
Proof.
  intros Hne zip pending. unfold files_after.
  erewrite (emitted_app (createZip_resume o zip) pending);
    [|rewrite createZip_resume_run; reflexivity].
  rewrite (createZip_begin_run w Hne), createZip_resume_run.
  split; [done|]. split; [by intros ->|]. split; [by intros e ->|]. done.
Qed.

Lemma createZip_zips_snapshot_witness :
  downloads (emitted (createZip_resume (resolves_at 1700000000500)
                        (zip_of (files (component two_staged))))
               (run [ClickClearAll] (snd (createZip_begin two_staged))))
    = [(JSZip_generate (zip_of (files (component two_staged))) zip_options,
        zip_filename 1700000000500)]
  ∧ files_after (createZip_resume (resolves_at 1700000000500)
                   (zip_of (files (component two_staged))))
      (run [ClickClearAll] (snd (createZip_begin two_staged))) = [].
Proof.
  assert (files (component two_staged) ≠ []) as Hne by done.
  destruct (createZip_zips_snapshot (resolves_at 1700000000500) two_staged
              [ClickClearAll] Hne) as (_ & H2 & _ & H4 & _).
  split; [exact (H2 eq_refl)|]. rewrite H4. reflexivity.
Defined.

(** ** Sessions with builds in flight *)

Lemma step_builder_frame w a :
  (∀ o, a ≠ ClickCreateZip o) →
  isCreatingZip (component (step w a)) = isCreatingZip (component w)
  ∧ zipProgress (component (step w a)) = zipProgress (component w).
Proof.
  intros Ha. unfold step. destruct a as [| |o fs|o [fs|]|i| |o]; cbn [handler].
  - unfold handleDragOver. by rewrite handleDrag_run.
  - unfold handleDragLeave. by rewrite handleDrag_run.
  - by rewrite handleDrop_run, addFiles_run.
  - cbn [handleFileInput]. by rewrite addFiles_run.
  - done.
  - by rewrite removeFile_run.
  - by rewrite clearAllFiles_run.
  - by destruct (Ha o).
Qed.

(** Staging and drag handlers show no error toast. *)
Lemma step_no_error_toast w a m :
  (∀ o, a ≠ ClickCreateZip o) →
  (true, m) ∈ toasts (trace (step w a)) → (true, m) ∈ toasts (trace w).
Proof.
  intros Ha. unfold step. destruct a as [| |o fs|o [fs|]|i| |o]; cbn [handler].
  - unfold handleDragOver. rewrite handleDrag_run. cbn [snd trace].
    unfold toasts. rewrite omap_app. cbn. by rewrite app_nil_r.
  - unfold handleDragLeave. rewrite handleDrag_run. cbn [snd trace].
    unfold toasts. rewrite omap_app. cbn. by rewrite app_nil_r.
  - rewrite handleDrop_run, addFiles_run. cbn [snd trace component].
    destruct (other_staging o fs) as [_ Ht]. unfold toasts in *.
    rewrite !omap_app, Ht. cbn. rewrite app_nil_r, elem_of_app.
    intros [?|Hin]; [done|]. by apply list_elem_of_singleton in Hin.
  - cbn [handleFileInput]. rewrite addFiles_run. cbn [snd trace component].
    destruct (other_staging o fs) as [_ Ht]. unfold toasts in *.
    rewrite !omap_app, Ht. cbn. rewrite elem_of_app.
    intros [?|Hin]; [done|]. by apply list_elem_of_singleton in Hin.
  - done.
  - rewrite removeFile_run. cbn [snd trace]. unfold toasts.
    rewrite !omap_app, omap_fmap_None by done. cbn. by rewrite app_nil_r.
  - rewrite clearAllFiles_run. cbn [snd trace]. unfold toasts.
    rewrite !omap_app, omap_fmap_None by done. cbn. rewrite elem_of_app.
    intros [?|Hin]; [done|]. by apply list_elem_of_singleton in Hin.
  - by destruct (Ha o).
Qed.

Lemma enabled_createZip c o :
  enabled c (ClickCreateZip o) = true → files c ≠ [] ∧ isCreatingZip c = false.
Proof.
  cbn [enabled]. intros H. apply andb_true_iff in H as [Hlen Hb]. split.
  - intros Hnil. by rewrite Hnil in Hlen.
  - by destruct (isCreatingZip c).
Qed.

Lemma create_or_other a :
  (∃ o, a = ClickCreateZip o) ∨ (∀ o, a ≠ ClickCreateZip o).
Proof. destruct a; try (by right); left; eauto. Qed.

Lemma async_step_idle_or_building s i :
  idle_or_building s →
  match i with
  | Click a => enabled (component (world s)) a = true
  | Settled => True
  end →
  idle_or_building (async_step s i).
Proof.
  intros Hinv Hen. destruct i as [a|].
  - destruct (create_or_other a) as [[o ->]|Ha].
    + apply enabled_createZip in Hen as [Hne Hidle].
      destruct Hinv as [(Hin & _ & _)|(? & ? & _ & Hb & _)]; [|congruence].
      cbn [async_step]. rewrite (createZip_begin_run _ Hne). right.
      exists o, (zip_of (files (component (world s)))). by rewrite Hin.
    + destruct (step_builder_frame (world s) a Ha) as [Hb Hp].
      assert (async_step s (Click a)
              = {| world := step (world s) a; inflight := inflight s |}) as ->.
      { destruct a; try done. by destruct (Ha o). }
      unfold idle_or_building. cbn [world inflight]. by rewrite Hb, Hp.
  - cbn [async_step].
    destruct Hinv as [(Hin & Hb & Hp)|(o & zip & Hin & _ & _)]; rewrite Hin.
    + left. by rewrite Hin.
    + left. cbn [world inflight]. by rewrite createZip_resume_run.
Qed.

Lemma async_step_error_toasts s i :
  (∀ m, (true, m) ∈ toasts (trace (world s)) → m = "Failed to create ZIP file") →
  match i with
  | Click a => enabled (component (world s)) a = true
  | Settled => True
  end →
  ∀ m, (true, m) ∈ toasts (trace (world (async_step s i))) →
       m = "Failed to create ZIP file".
Proof.
  intros Hinv Hen m. destruct i as [a|].
  - destruct (create_or_other a) as [[o ->]|Ha].
    + apply enabled_createZip in Hen as [Hne _].
      cbn [async_step]. rewrite (createZip_begin_run _ Hne). cbn [world trace].
      unfold toasts in *. rewrite !omap_app, omap_fmap_None by done. cbn.
      rewrite app_nil_r. apply Hinv.
    + assert (async_step s (Click a)
              = {| world := step (world s) a; inflight := inflight s |}) as ->.
      { destruct a; try done. by destruct (Ha o). }
      cbn [world]. intros Hm. apply Hinv. by apply (step_no_error_toast _ a).
  - cbn [async_step]. destruct (inflight s) as [|[o zip] rest]; [apply Hinv|].
    cbn [world]. rewrite createZip_resume_run. cbn [snd trace].
    unfold toasts in *. rewrite omap_app, elem_of_app.
    intros [Hm|Hm]; [by apply Hinv|].
    destruct (generate_rejects o); cbn in Hm.
    + apply list_elem_of_singleton in Hm. congruence.
    + by apply list_elem_of_singleton in Hm.
Qed.

Lemma async_run_cons i inputs s :
  async_run (i :: inputs) s = async_run inputs (async_step s i).
Proof. done. Qed.

(** X14: builds never overlap.  In a session in which every click was on
    something the page offered, the builder is either idle at 0 with no
    promise pending, or building at 75 with exactly one promise pending;
    while a promise is pending [Create ZIP] is disabled. *)
Theorem builds_never_overlap inputs :
  ui_driven inputs mounted →
  idle_or_building (async_run inputs mounted)
  ∧ (length (inflight (async_run inputs mounted)) ≤ 1)%nat
  ∧ (∀ o, inflight (async_run inputs mounted) ≠ [] →
          enabled (component (world (async_run inputs mounted))) (ClickCreateZip o)
          = false).
Proof.
  intros Hui.
  assert (idle_or_building (async_run inputs mounted)) as Hinv.
  { assert (idle_or_building mounted) as H0 by (by left).
    revert Hui H0. generalize mounted. induction inputs as [|i inputs IH]; intros s Hui H0.
    - done.
    - destruct Hui as [Hen Hui]. rewrite async_run_cons. apply IH; [done|].
      by apply async_step_idle_or_building. }
  split; [exact Hinv|].
  destruct Hinv as [(Hin & _ & _)|(o & zip & Hin & Hb & _)]; rewrite Hin.
  - split; [cbn; lia|]. by intros o.
  - split; [cbn; lia|]. intros o' _. cbn [enabled]. rewrite Hb. apply andb_false_r.
Qed.

Lemma builds_never_overlap_witness :
  ui_driven clear_while_building mounted
  ∧ idle_or_building (async_run clear_while_building mounted).
Proof.
  assert (ui_driven clear_while_building mounted) as Hui.
  { cbn [ui_driven clear_while_building]. repeat split; vm_compute; reflexivity. }
  destruct (builds_never_overlap clear_while_building Hui) as (H & _).
  exact (conj Hui H).
Defined.

(** X15: in a session in which every click was on something the page
    offered, the only error toast that ever shows is
    [Failed to create ZIP file]: the guard of [createZip] for an empty
    collection is never taken, because the button is rendered only for a
    non-empty collection. *)
Theorem ui_error_toasts inputs :
  ui_driven inputs mounted →
  ∀ m, (true, m) ∈ toasts (trace (world (async_run inputs mounted))) →
       m = "Failed to create ZIP file".
Proof.
  intros Hui.
  assert (∀ m, (true, m) ∈ toasts (trace (world mounted))
               → m = "Failed to create ZIP file") as H0.
  { intros m Hm. cbn in Hm. by inversion Hm. }
  revert Hui H0. generalize mounted. induction inputs as [|i inputs IH]; intros s Hui H0.
  - done.
  - destruct Hui as [Hen Hui]. rewrite async_run_cons. apply IH; [done|].
    by apply async_step_error_toasts.
Qed.

Lemma ui_error_toasts_witness :
  ui_driven clear_while_building mounted
  ∧ ∀ m, (true, m) ∈ toasts (trace (world (async_run clear_while_building mounted))) →
         m = "Failed to create ZIP file".
Proof.
  assert (ui_driven clear_while_building mounted) as Hui.
  { cbn [ui_driven clear_while_building]. repeat split; vm_compute; reflexivity. }
  exact (conj Hui (ui_error_toasts clear_while_building Hui)).
Defined.

(** X17: when the clock reads a year outside 0000 to 9999, the ISO form
    starts with a sign and a six-digit year, and the name of the download
    no longer has the shape [file-fling-dddd-dd-ddTdd-dd-dd.zip]. *)
Theorem zip_filename_expanded_year t :
  ¬ (0 <= JSDate.YearFromTime t <= 9999)%Z →
  matches filename_pattern (zip_filename t) = false.
Proof.
  intros Hy. unfold zip_filename, JSDate.toISOString, JSDate.year_string.
  replace ((0 <=? JSDate.YearFromTime t)%Z && (JSDate.YearFromTime t <=? 9999)%Z)
    with false.
  2:{ symmetry. apply andb_false_iff.
      destruct (Z.leb_spec 0 (JSDate.YearFromTime t)); [right|by left].
      apply Z.leb_gt. lia. }
  generalize (Z.abs (JSDate.YearFromTime t)) (JSDate.MonthFromTime t + 1)%Z
    (JSDate.DateFromTime t) (JSDate.HourFromTime t) (JSDate.MinFromTime t)
    (JSDate.SecFromTime t) (JSDate.msFromTime t).
  intros y mo d h mi s ms.
  destruct (JSDate.YearFromTime t <? 0)%Z; reflexivity.
Qed.

Lemma zip_filename_expanded_year_witness :
  ¬ (0 <= JSDate.YearFromTime 253402300800000 <= 9999)%Z
  ∧ matches filename_pattern (zip_filename 253402300800000) = false.
Proof.
  assert (¬ (0 <= JSDate.YearFromTime 253402300800000 <= 9999)%Z) as Hy.
  { vm_compute. intros [_ H]. by apply H. }
  exact (conj Hy (zip_filename_expanded_year _ Hy)).
Defined.
